(** * NOC monitoring backend: a shallow embedding of the server

    The server (Express + Socket.IO + mysql2) is embedded as pure functions
    over an explicit [World]: every call that leaves the process (creating a
    pool, testing a connection, running a query, verifying a token) is
    answered by an [Env] oracle indexed by the number of external calls made
    so far, and every observable effect (a query, an emitted event, a console
    line, a timer wait) is collected in a chronological trace.

    JavaScript strings are modelled as Rocq strings whose characters are the
    code units 0..255. *)

From Stdlib Require Import String Ascii List Bool Arith NArith ZArith Lia.
Import ListNotations.

Local Open Scope string_scope.
Local Open Scope list_scope.

(* ================================================================== *)
(** ** JavaScript values that occur in rows, payloads and JSON bodies *)
(* ================================================================== *)

Module Js.

(** A JavaScript number, as far as the server can tell numbers apart: NaN,
    the two infinities, or the decimal numeral
    [(-1)^neg * digits * 10^exp10] that is then rounded to binary64 (the
    rounding itself is not modelled). *)
Inductive Number : Type :=
| NaN
| Inf (neg : bool)
| Dec (neg : bool) (digits : N) (exp10 : Z).

(** A field of a row, of an event payload or of a JSON body. *)
Inductive Scalar : Type :=
| Undefined
| Null
| Bool (b : bool)
| Num (n : Number)
| Str (s : string).

(** A flat object: keys in insertion order. *)
Definition Obj : Type := list (string * Scalar).

(** [o.key]: the value stored under [key], [undefined] when absent. *)
Fixpoint get (key : string) (o : Obj) : Scalar :=
  match o with
  | [] => Undefined
  | (k, v) :: rest => if String.eqb k key then v else get key rest
  end.

(** What the server sends: one object or an array of objects. *)
Inductive Value : Type :=
| Object (o : Obj)
| Array (rows : list Obj).

(** *** parseFloat *)

Definition is_digit (c : ascii) : bool :=
  let n := nat_of_ascii c in ((48 <=? n) && (n <=? 57))%nat.

Definition digit_value (c : ascii) : N := N.of_nat (nat_of_ascii c - 48).

(** White space and line terminators among the code units 0..255:
    TAB, LF, VT, FF, CR, SP and NBSP. *)
Definition is_space (c : ascii) : bool :=
  let n := nat_of_ascii c in
  ((n =? 9) || (n =? 10) || (n =? 11) || (n =? 12) || (n =? 13)
   || (n =? 32) || (n =? 160))%nat.

Fixpoint trim_start (s : string) : string :=
  match s with
  | String c rest => if is_space c then trim_start rest else s
  | EmptyString => EmptyString
  end.

(** The longest run of decimal digits at the start of [s]: how many there
    are, their value, and what follows them. *)
Fixpoint digits_from (count : nat) (acc : N) (s : string) : nat * N * string :=
  match s with
  | String c rest =>
      if is_digit c
      then digits_from (S count) (acc * 10 + digit_value c)%N rest
      else (count, acc, s)
  | EmptyString => (count, acc, s)
  end.

Definition strip_prefix (p s : string) : option string :=
  if String.prefix p s
  then Some (substring (String.length p) (String.length s - String.length p) s)
  else None.

(** ExponentPart: [e] or [E], an optional sign and at least one digit.
    Without a digit the exponent is not part of the literal. *)
Definition exponent_part (s : string) : Z * string :=
  match s with
  | String c rest =>
      if (Ascii.eqb c "e" || Ascii.eqb c "E")%bool
      then
        let '(neg, body) :=
          match rest with
          | String sign r =>
              if Ascii.eqb sign "-" then (true, r)
              else if Ascii.eqb sign "+" then (false, r)
              else (false, rest)
          | EmptyString => (false, rest)
          end in
        let '(count, e, after) := digits_from 0 0%N body in
        match count with
        | O => (0%Z, s)
        | S _ => ((if neg then - Z.of_N e else Z.of_N e)%Z, after)
        end
      else (0%Z, s)
  | EmptyString => (0%Z, s)
  end.

(** StrUnsignedDecimalLiteral at the start of [s], the sign already read:
    [Infinity], [digits . digits? exp?], [. digits exp?] or [digits exp?]. *)
Definition unsigned_literal (neg : bool) (s : string) : option (Number * string) :=
  match strip_prefix "Infinity" s with
  | Some rest => Some (Inf neg, rest)
  | None =>
      let '(icount, ival, after_int) := digits_from 0 0%N s in
      let integer_only :=
        match icount with
        | O => None
        | S _ =>
            let '(e, rest) := exponent_part after_int in
            Some (Dec neg ival e, rest)
        end in
      match after_int with
      | String c frac =>
          if Ascii.eqb c "." then
            let '(fcount, mant, after_frac) := digits_from 0 ival frac in
            match icount, fcount with
            | O, O => None
            | _, _ =>
                let '(e, rest) := exponent_part after_frac in
                Some (Dec neg mant (e - Z.of_nat fcount), rest)
            end
          else integer_only
      | EmptyString => integer_only
      end
  end.

(** StrDecimalLiteral at the start of [s]: the longest prefix that is one,
    with its value and the characters left over. *)
Definition decimal_prefix (s : string) : option (Number * string) :=
  match s with
  | String c rest =>
      if Ascii.eqb c "-" then unsigned_literal true rest
      else if Ascii.eqb c "+" then unsigned_literal false rest
      else unsigned_literal false s
  | EmptyString => None
  end.

(** [parseFloat(s)] for a string: leading white space is skipped, the
    longest decimal literal is read, anything after it is ignored; no
    literal at all gives NaN. *)
Definition parseFloat_string (s : string) : Number :=
  match decimal_prefix (trim_start s) with
  | Some (n, _) => n
  | None => NaN
  end.

(** [parseFloat(v)] converts [v] to a string first. [String(n)] of a number
    reads back as [n], except that [-0] prints as [0]. *)
Definition parseFloat (v : Scalar) : Number :=
  match v with
  | Str s => parseFloat_string s
  | Num (Dec true 0%N _) => Dec false 0 0
  | Num n => n
  | Undefined => parseFloat_string "undefined"
  | Null => parseFloat_string "null"
  | Bool true => parseFloat_string "true"
  | Bool false => parseFloat_string "false"
  end.

(** A numeric string in the sense of [Number(s)] on decimal input: the
    whole string, white space at both ends apart, is one decimal literal. *)
Definition numeric_string (s : string) : bool :=
  match decimal_prefix (trim_start s) with
  | Some (_, rest) =>
      match trim_start rest with EmptyString => true | _ => false end
  | None => false
  end.

(** The first characters that can start a decimal literal: a digit, a dot
    followed by a digit, or the word [Infinity]; each after an optional
    sign. *)
Definition starts_unsigned (s : string) : bool :=
  match s with
  | String c rest =>
      if is_digit c then true
      else if Ascii.eqb c "." then
        match rest with String d _ => is_digit d | EmptyString => false end
      else String.prefix "Infinity" s
  | EmptyString => false
  end.

Definition starts_literal (s : string) : bool :=
  match s with
  | String c rest =>
      if Ascii.eqb c "-" then starts_unsigned rest
      else if Ascii.eqb c "+" then starts_unsigned rest
      else starts_unsigned s
  | EmptyString => false
  end.

End Js.

(* ================================================================== *)
(** ** The world outside the process *)
(* ================================================================== *)

(** A thrown JavaScript [Error], known by its message. *)
Record Error : Type := mkError { message : string }.

(** The options object handed to mysql2's [createPool]. *)
Record PoolConfig : Type := mkPoolConfig {
  host : string;
  user : string;
  password : string;
  database : string;
  connectionLimit : nat;
  keepAlive : bool
}.

(** A pool object; it is told apart by the options it was created with. *)
Inductive Pool : Type := PoolOf (cfg : PoolConfig).

(** Lines written with [console.log] and [console.error]. *)
Inductive LogLine : Type :=
| ConnectionSuccessful
| AttemptFailed (attempt : nat) (msg : string)
| RetryingIn (delay_ms : nat)
| AllEstablished
| FatalConnectionError (e : Error)
| ConnectionFailed (msg : string)
| LoginError (e : Error)
| AccessLogsError (attempt : nat) (e : Error)
| PollError (e : Error).

(** Everything the process does that can be seen from outside, in the
    order it happens. *)
Inductive Action : Type :=
| CreatePool (cfg : PoolConfig) (failure : option Error)
| GetConnection (p : Pool) (failure : option Error)
| Release (p : Pool)
| Query (p : Pool) (sql : string) (params : list Js.Scalar)
        (result : Error + list Js.Obj)
| Emit (topic : string) (payload : Js.Value)
| ConsoleLog (line : LogLine)
| ConsoleError (line : LogLine)
| Sleep (ms : nat)
| Exit (code : nat).

(** The behaviour of everything outside the process. The first argument of
    each answer is the number of external calls made before this one, so
    the same call can be answered differently each time. *)
Record Env : Type := mkEnv {
  getenv : string -> option string;
  create_pool : nat -> PoolConfig -> option Error;
  get_connection : nat -> Pool -> option Error;
  run_query : nat -> Pool -> string -> list Js.Scalar -> Error + list Js.Obj;
  bcrypt_compare : nat -> Js.Scalar -> Js.Scalar -> Error + bool;
  jwt_sign : nat -> Js.Obj -> string -> string;
  jwt_verify : nat -> string -> string -> Error + Js.Obj
}.

Record World : Type := mkWorld {
  calls : nat;            (* external calls made so far *)
  now : nat               (* wall clock, in milliseconds *)
}.

(** *** Computations that may throw *)

Inductive Result (A : Type) : Type :=
| Ok (a : A)
| Throw (e : Error).
Arguments Ok {A} a.
Arguments Throw {A} e.

(** A computation: from the world before it to its result, the world after
    it and what it did, oldest action first. *)
Definition M (A : Type) : Type := World -> Result A * World * list Action.

Definition result_of {A} (run : Result A * World * list Action) : Result A :=
  fst (fst run).
Definition trace_of {A} (run : Result A * World * list Action) : list Action :=
  snd run.

Definition ret {A} (a : A) : M A := fun w => (Ok a, w, []).

Definition throw {A} (e : Error) : M A := fun w => (Throw e, w, []).

Definition bind {A B} (m : M A) (k : A -> M B) : M B :=
  fun w =>
    match m w with
    | (Ok a, w', t) => let '(r, w'', t') := k a w' in (r, w'', t ++ t')
    | (Throw e, w', t) => (Throw e, w', t)
    end.

(** [try { body } catch (error) { handler error }] *)
Definition try_catch {A} (body : M A) (handler : Error -> M A) : M A :=
  fun w =>
    match body w with
    | (Ok a, w', t) => (Ok a, w', t)
    | (Throw e, w', t) => let '(r, w'', t') := handler e w' in (r, w'', t ++ t')
    end.

Declare Scope js_scope.
Delimit Scope js_scope with js.
Notation "x <- m ;; k" := (bind m (fun x => k))
  (at level 100, m at next level, right associativity) : js_scope.
Notation "m ;;; k" := (bind m (fun _ => k))
  (at level 100, right associativity) : js_scope.
Local Open Scope js_scope.

Definition act (a : Action) : M unit := fun w => (Ok tt, w, [a]).

(** An external call: answered by the oracle at the current call count and
    counted; [record] says what it leaves in the trace. *)
Definition external {A} (answer : nat -> A) (record : A -> list Action) : M A :=
  fun w =>
    let a := answer (calls w) in
    (Ok a, mkWorld (S (calls w)) (now w), record a).

Definition console_log (l : LogLine) : M unit := act (ConsoleLog l).
Definition console_error (l : LogLine) : M unit := act (ConsoleError l).

(** [io.emit(topic, payload)] *)
Definition io_emit (topic : string) (payload : Js.Value) : M unit :=
  act (Emit topic payload).

(** [await new Promise(resolve => setTimeout(resolve, ms))] *)
Definition sleep (ms : nat) : M unit :=
  fun w => (Ok tt, mkWorld (calls w) (now w + ms), [Sleep ms]).

Definition when (b : bool) (m : M unit) : M unit := if b then m else ret tt.

(** [a || b] on an environment variable: unset and empty both fall back. *)
Definition or_default (v : option string) (default : string) : string :=
  match v with
  | Some (String c rest) => String c rest
  | _ => default
  end.

(* ================================================================== *)
(** ** The server *)
(* ================================================================== *)

(** An HTTP response: status code and body. *)
Inductive Body : Type :=
| Json (v : Js.Value)
| Text (s : string).

Record Response : Type := mkResponse { status : nat; body : Body }.

(** [res.json(v)] and [res.status(code).json(v)] *)
Definition res_json (v : Js.Value) : Response := mkResponse 200 (Json v).
Definition res_status_json (code : nat) (v : Js.Value) : Response :=
  mkResponse code (Json v).

(** The module-level variables [pool] and [accessLogsPool]; [None] is
    [undefined], their value until start-up has finished. *)
Record Pools : Type := mkPools {
  pool : option Pool;
  accessLogsPool : option Pool
}.

(** [s.split(sep)] for a one-character separator. *)
Fixpoint split (sep : ascii) (s : string) : list string :=
  match s with
  | EmptyString => [EmptyString]
  | String c rest =>
      if Ascii.eqb c sep then EmptyString :: split sep rest
      else match split sep rest with
           | word :: words => String c word :: words
           | [] => [String c EmptyString]
           end
  end.

(** What a middleware does with a request: answer it, or call [next()]
    after setting [req.user]. *)
Inductive Middleware : Type :=
| Respond (r : Response)
| Next (user : Js.Obj).

(** How start-up ends: both module variables assigned, or
    [process.exit(code)]. *)
Inductive Startup : Type :=
| Established (pools : Pools)
| Exited (code : nat).

(** The statements sent to the stores; the join is written on one line,
    runs of white space in the source's template literal collapsed. *)
Definition sensor_data_sql : string :=
  "SELECT * FROM sensor_data ORDER BY id DESC LIMIT 1".
Definition sensor_data1_sql : string :=
  "SELECT * FROM sensor_data1 ORDER BY id DESC LIMIT 1".
Definition listrik_noc_sql : string :=
  "SELECT * FROM listrik_noc ORDER BY id DESC LIMIT 1".
Definition api_asap_data_sql : string :=
  "SELECT * FROM api_asap_data ORDER BY id DESC LIMIT 1".
Definition access_logs_sql : string :=
  "SELECT al.access_time, al.access_granted, u.username, d.door_name FROM access_logs al LEFT JOIN users u ON al.user_id = u.user_id LEFT JOIN doors d ON al.door_id = d.door_id ORDER BY al.access_time DESC LIMIT 5".
Definition users_sql : string := "SELECT * FROM users WHERE username = ?".

Definition undefined_pool_error (method : string) : Error :=
  mkError ("Cannot read properties of undefined (reading '" ++ method ++ "')").

Section Server.

Variable env : Env.

Definition JWT_SECRET : string :=
  or_default (getenv env "JWT_SECRET") "your-secret-key".

(** *** mysql2, bcryptjs and jsonwebtoken *)

Definition createPool (cfg : PoolConfig) : M Pool :=
  failure <- external (fun n => create_pool env n cfg)
                      (fun failure => [CreatePool cfg failure]);;
  match failure with
  | None => ret (PoolOf cfg)
  | Some e => throw e
  end.

(** [await p.getConnection()]; on a variable that is still [undefined] the
    property access itself throws. *)
Definition getConnection (p : option Pool) : M Pool :=
  match p with
  | None => throw (undefined_pool_error "getConnection")
  | Some p =>
      failure <- external (fun n => get_connection env n p)
                          (fun failure => [GetConnection p failure]);;
      match failure with
      | None => ret p
      | Some e => throw e
      end
  end.

Definition release (connection : Pool) : M unit := act (Release connection).

(** [const [rows] = await p.query(sql, params)] *)
Definition query (p : option Pool) (sql : string) (params : list Js.Scalar)
  : M (list Js.Obj) :=
  match p with
  | None => throw (undefined_pool_error "query")
  | Some p =>
      result <- external (fun n => run_query env n p sql params)
                         (fun result => [Query p sql params result]);;
      match result with
      | inl e => throw e
      | inr rows => ret rows
      end
  end.

(** [await bcrypt.compare(s, hash)] *)
Definition compare (s hash : Js.Scalar) : M bool :=
  answer <- external (fun n => bcrypt_compare env n s hash) (fun _ => []);;
  match answer with
  | inl e => throw e
  | inr same => ret same
  end.

(** [jwt.sign(payload, secret, { expiresIn: '7d' })] *)
Definition sign (payload : Js.Obj) (secret : string) : M string :=
  external (fun n => jwt_sign env n payload secret) (fun _ => []).

(** [jwt.verify(token, secret, callback)]: what the callback is given. *)
Definition verify (token secret : string) : M (Error + Js.Obj) :=
  external (fun n => jwt_verify env n token secret) (fun _ => []).

(** *** Connection pools *)

Definition main_config : PoolConfig :=
  mkPoolConfig
    (or_default (getenv env "MYSQL_HOST") "10.10.11.27")
    (or_default (getenv env "MYSQL_USER") "root")
    (or_default (getenv env "MYSQL_PASSWORD") "bismillah123")
    (or_default (getenv env "MYSQL_DATABASE") "suhu")
    10 true.

Definition access_logs_config : PoolConfig :=
  mkPoolConfig "10.10.11.27" "root" "bismillah123" "rfid_access_control"
               5 false.

(** The body of the [for (let i = 0; i < retries; i++)] loop of
    [createPoolWithRetry], run for the values of [i] still to come; after
    the last one the function throws. *)
Fixpoint connection_attempts (retries delay : nat) (indices : list nat)
  : M Pool :=
  match indices with
  | [] => throw (mkError "Failed to connect to database after multiple attempts")
  | i :: later =>
      try_catch
        (pool <- createPool main_config;;
         connection <- getConnection (Some pool);;
         release connection;;;
         console_log ConnectionSuccessful;;;
         ret pool)
        (fun error =>
           console_error (AttemptFailed (i + 1) (message error));;;
           when (i <? retries - 1)%nat
                (console_log (RetryingIn delay);;; sleep delay);;;
           connection_attempts retries delay later)
  end.

Definition createPoolWithRetry (retries delay : nat) : M Pool :=
  connection_attempts retries delay (seq 0 retries).

Definition createAccessLogsPool : M Pool := createPool access_logs_config.

(** Where [createPoolWithRetry] stands at the first [await] of its first
    turn: [pool.getConnection()] has been called and is pending, or the
    timer before the second turn is running, or, with fewer than two turns,
    the function has settled without waiting for anything. *)
Inductive Suspended : Type :=
| AwaitingConnection (pool : Pool) (answer : option Error)
| AwaitingTimer
| Settled (r : Result Pool).

(** [createPoolWithRetry(retries, delay)] from the call to its first
    [await]. The call of [getConnection] is recorded when it is made, with
    the answer the pool will give to it. *)
Definition createPoolWithRetry_begin (retries delay : nat)
  : World -> Suspended * World * list Action :=
  fun w =>
    match retries with
    | O =>
        (Settled (Throw (mkError
           "Failed to connect to database after multiple attempts")), w, [])
    | S _ =>
        match createPool main_config w with
        | (Ok pool, w1, t1) =>
            let answer := get_connection env (calls w1) pool in
            (AwaitingConnection pool answer,
             mkWorld (S (calls w1)) (now w1),
             t1 ++ [GetConnection pool answer])
        | (Throw error, w1, t1) =>
            let logged :=
              t1 ++ [ConsoleError (AttemptFailed 1 (message error))] in
            if (0 <? retries - 1)%nat
            then (AwaitingTimer, w1, logged ++ [ConsoleLog (RetryingIn delay)])
            else (Settled (Throw (mkError
                    "Failed to connect to database after multiple attempts")),
                  w1, logged)
        end
    end.

(** [createPoolWithRetry(retries, delay)] from its first [await] on. *)
Definition createPoolWithRetry_resume (retries delay : nat) (s : Suspended)
  : M Pool :=
  let later := connection_attempts retries delay (seq 1 (retries - 1)) in
  match s with
  | AwaitingConnection pool None =>
      release pool;;;
      console_log ConnectionSuccessful;;;
      ret pool
  | AwaitingConnection pool (Some error) =>
      console_error (AttemptFailed 1 (message error));;;
      when (0 <? retries - 1)%nat
           (console_log (RetryingIn delay);;; sleep delay);;;
      later
  | AwaitingTimer => sleep delay;;; later
  | Settled r => fun w => (r, w, [])
  end.

(** [Promise.all([createPoolWithRetry(), createAccessLogsPool()])] with its
    [then] and [catch]; the default arguments are 5 and 5000.
    [createPoolWithRetry] is called first and runs to its first [await];
    then [createAccessLogsPool], which has no [await], runs to its end. If
    it throws, the rejection reaches [process.exit(1)] before the pending
    connection or timer of [createPoolWithRetry] can settle; otherwise
    [createPoolWithRetry] goes on, and its outcome decides. *)
Definition startup : World -> Startup * World * list Action :=
  fun w =>
    let fatal e := [ConsoleError (FatalConnectionError e); Exit 1] in
    let '(suspended, w1, t1) := createPoolWithRetry_begin 5 5000 w in
    match createAccessLogsPool w1 with
    | (Throw e, w2, t2) => (Exited 1, w2, t1 ++ t2 ++ fatal e)
    | (Ok logsPool, w2, t2) =>
        match createPoolWithRetry_resume 5 5000 suspended w2 with
        | (Throw e, w3, t3) => (Exited 1, w3, t1 ++ t2 ++ t3 ++ fatal e)
        | (Ok mainPool, w3, t3) =>
            (Established (mkPools (Some mainPool) (Some logsPool)), w3,
             t1 ++ t2 ++ t3 ++ [ConsoleLog AllEstablished])
        end
    end.

Definition checkDatabaseConnection (st : Pools) : M bool :=
  try_catch
    (connection <- getConnection (pool st);;
     console_log ConnectionSuccessful;;;
     release connection;;;
     ret true)
    (fun error =>
       console_error (ConnectionFailed (message error));;;
       ret false).

(** *** HTTP routes *)

Definition invalid_credentials : Response :=
  res_status_json 401 (Js.Object [("error", Js.Str "Invalid credentials")]).

(** [app.post('/api/login', ...)]; [body] is [req.body]. *)
Definition login (st : Pools) (body : Js.Obj) : M Response :=
  try_catch
    (let username := Js.get "username" body in
     let password := Js.get "password" body in
     users <- query (pool st) users_sql [username];;
     match users with
     | [] => ret invalid_credentials
     | user :: _ =>
         isValidPassword <- compare password (Js.get "password" user);;
         if negb isValidPassword
         then ret invalid_credentials
         else
           token <- sign [("userId", Js.get "id" user);
                          ("username", Js.get "username" user)]
                         JWT_SECRET;;
           ret (res_json (Js.Object [("token", Js.Str token)]))
     end)
    (fun error =>
       console_error (LoginError error);;;
       ret (res_status_json 500
              (Js.Object [("error", Js.Str "Internal server error")]))).

(** [authHeader && authHeader.split(' ')[1]]: [None] stands for
    [undefined]; an empty header is falsy and is the result itself. *)
Definition token_of (authHeader : option string) : option string :=
  match authHeader with
  | None => None
  | Some EmptyString => Some EmptyString
  | Some header => nth_error (split " " header) 1
  end.

(** [authenticateToken]; [authHeader] is [req.headers['authorization']]. *)
Definition authenticateToken (authHeader : option string) : M Middleware :=
  match token_of authHeader with
  | None | Some EmptyString =>
      ret (Respond (res_status_json 401
             (Js.Object [("error", Js.Str "No token provided")])))
  | Some token =>
      result <- verify token JWT_SECRET;;
      match result with
      | inl err =>
          ret (Respond (res_status_json 403
                 (Js.Object [("error", Js.Str "Invalid token")])))
      | inr user => ret (Next user)
      end
  end.

(** [app.get('/', ...)] *)
Definition root : Response :=
  mkResponse 200 (Text "NOC Monitoring Backend is running").

(** [app.get('/api/health', ...)] *)
Definition health (st : Pools) : M Response :=
  dbConnected <- checkDatabaseConnection st;;
  ret (res_json (Js.Object
         [("status", Js.Str "ok");
          ("database",
           Js.Str (if dbConnected then "connected" else "disconnected"))])).

(** The [while (retries > 0)] loop of [app.get('/api/access-logs', ...)],
    entered with the current value of [retries]. The result is the
    response sent, [None] when the handler ends without sending one. *)
Fixpoint access_logs_loop (st : Pools) (retries : nat) : M (option Response) :=
  match retries with
  | O => ret None
  | S decremented =>
      try_catch
        (rows <- query (accessLogsPool st) access_logs_sql [];;
         ret (Some (res_json (Js.Array rows))))
        (fun error =>
           console_error (AccessLogsError (4 - retries) error);;;
           if (decremented =? 0)%nat
           then ret (Some (res_status_json 500
                       (Js.Object
                          [("error", Js.Str "Failed to fetch access logs");
                           ("details", Js.Str (message error))])))
           else (sleep 1000;;; access_logs_loop st decremented))
  end.

Definition get_access_logs (st : Pools) : M (option Response) :=
  access_logs_loop st 3.

(** *** The poll tick *)

(** [{ field: parseFloat(row.field), waktu: row.waktu }] *)
Definition sensor_event (field : string) (row : Js.Obj) : Js.Value :=
  Js.Object [(field, Js.Num (Js.parseFloat (Js.get field row)));
             ("waktu", Js.get "waktu" row)].

Definition fetchAndEmitData (st : Pools) : M unit :=
  try_catch
    (nocData <- query (pool st) sensor_data_sql [];;
     match nocData with
     | row :: _ =>
         io_emit "noc_temperature" (sensor_event "suhu" row);;;
         io_emit "noc_humidity" (sensor_event "kelembapan" row)
     | [] => ret tt
     end;;;
     upsData <- query (pool st) sensor_data1_sql [];;
     match upsData with
     | row :: _ =>
         io_emit "ups_temperature" (sensor_event "suhu" row);;;
         io_emit "ups_humidity" (sensor_event "kelembapan" row)
     | [] => ret tt
     end;;;
     electricalData <- query (pool st) listrik_noc_sql [];;
     match electricalData with
     | row :: _ => io_emit "electrical_data" (Js.Object row)
     | [] => ret tt
     end;;;
     fireSmokeData <- query (pool st) api_asap_data_sql [];;
     match fireSmokeData with
     | row :: _ => io_emit "fire_smoke_data" (Js.Object row)
     | [] => ret tt
     end;;;
     accessLogs <- query (accessLogsPool st) access_logs_sql [];;
     match accessLogs with
     | _ :: _ => io_emit "access_logs" (Js.Array accessLogs)
     | [] => ret tt
     end)
    (fun error => console_error (PollError error)).

(** [setInterval(fetchAndEmitData, 5000)]: the first [n] ticks. *)
Fixpoint poll (st : Pools) (n : nat) : M unit :=
  match n with
  | O => ret tt
  | S n' => fetchAndEmitData st;;; poll st n'
  end.

End Server.

(* ================================================================== *)
(** ** Reading a trace *)
(* ================================================================== *)

(** What one poll tick does, started in world [w]. *)
Definition tick_trace (env : Env) (st : Pools) (w : World) : list Action :=
  trace_of (fetchAndEmitData env st w).

(** The events pushed to the subscribers, oldest first. *)
Fixpoint emitted (t : list Action) : list (string * Js.Value) :=
  match t with
  | [] => []
  | Emit topic payload :: rest => (topic, payload) :: emitted rest
  | _ :: rest => emitted rest
  end.

Definition topics (t : list Action) : list string := map fst (emitted t).

(** The statements of the queries sent, oldest first. *)
Fixpoint queried (t : list Action) : list string :=
  match t with
  | [] => []
  | Query _ sql _ _ :: rest => sql :: queried rest
  | _ :: rest => queried rest
  end.


(** Did a query with statement [sql] come back with at least one row? *)
Definition answered_with_rows (t : list Action) (sql : string) : bool :=
  existsb (fun a =>
             match a with
             | Query _ q _ (inr (_ :: _)) => String.eqb q sql
             | _ => false
             end) t.

(** The seven topics in the order of the [io.emit] calls in the source,
    each with the statement of the query that feeds it. *)
Definition topic_sources : list (string * string) :=
  [("noc_temperature", sensor_data_sql);
   ("noc_humidity", sensor_data_sql);
   ("ups_temperature", sensor_data1_sql);
   ("ups_humidity", sensor_data1_sql);
   ("electrical_data", listrik_noc_sql);
   ("fire_smoke_data", api_asap_data_sql);
   ("access_logs", access_logs_sql)].

Definition topic_order : list string := map fst topic_sources.

Definition source_of (topic : string) : string :=
  match find (fun entry => String.eqb (fst entry) topic) topic_sources with
  | Some (_, sql) => sql
  | None => EmptyString
  end.

(** A tick seen as a sequence of queries asked and topics told. *)
Inductive Step : Type :=
| Ask (sql : string)
| Tell (topic : string).

Fixpoint steps (t : list Action) : list Step :=
  match t with
  | [] => []
  | Query _ sql _ _ :: rest => Ask sql :: steps rest
  | Emit topic _ :: rest => Tell topic :: steps rest
  | _ :: rest => steps rest
  end.

(** The full tick: every query followed by its topics. *)
Definition script : list Step :=
  [Ask sensor_data_sql; Tell "noc_temperature"; Tell "noc_humidity";
   Ask sensor_data1_sql; Tell "ups_temperature"; Tell "ups_humidity";
   Ask listrik_noc_sql; Tell "electrical_data";
   Ask api_asap_data_sql; Tell "fire_smoke_data";
   Ask access_logs_sql; Tell "access_logs"].


(** Connection attempts, timer waits and process exits in a trace. *)
Definition is_attempt (a : Action) : bool :=
  match a with CreatePool _ _ => true | _ => false end.

Definition attempts (t : list Action) : nat := length (filter is_attempt t).

Fixpoint sleeps (t : list Action) : list nat :=
  match t with
  | [] => []
  | Sleep ms :: rest => ms :: sleeps rest
  | _ :: rest => sleeps rest
  end.

Definition is_exit (a : Action) : bool :=
  match a with Exit _ => true | _ => false end.



(** What the handler of a failed connection attempt [i] leaves in the
    trace before the next attempt starts, and the world it leaves. *)
Definition after_failure (retries delay i : nat) (e : Error) : list Action :=
  ConsoleError (AttemptFailed (i + 1) (message e))
    :: (if (i <? retries - 1)%nat
        then [ConsoleLog (RetryingIn delay); Sleep delay]
        else []).

Definition waited (retries delay i : nat) (w : World) : World :=
  if (i <? retries - 1)%nat then mkWorld (calls w) (now w + delay) else w.


(** What acquiring the primary pool can leave in the trace. *)
Definition acquisition_action (env : Env) (a : Action) : Prop :=
  is_exit a = false
  /\ forall p failure,
      a = GetConnection p failure -> p = PoolOf (main_config env).


(** The two refusals of the token middleware. *)
Definition no_token_provided : Response :=
  mkResponse 401 (Json (Js.Object [("error", Js.Str "No token provided")])).

Definition invalid_token : Response :=
  mkResponse 403 (Json (Js.Object [("error", Js.Str "Invalid token")])).

(** Does [c] occur in [s]? *)
Fixpoint contains (c : ascii) (s : string) : bool :=
  match s with
  | EmptyString => false
  | String d rest => Ascii.eqb d c || contains c rest
  end.

(* ================================================================== *)
(** ** The poll tick as a table of queries *)
(* ================================================================== *)

(** One block of [fetchAndEmitData]: which module variable it queries,
    with which statement, and the events it emits for the rows it gets. *)
Record PollQuery : Type := mkPollQuery {
  from : Pools -> option Pool;
  statement : string;
  events : list Js.Obj -> list (string * Js.Value)
}.

Definition poll_queries : list PollQuery :=
  [mkPollQuery pool sensor_data_sql
     (fun rows =>
        match rows with
        | row :: _ => [("noc_temperature", sensor_event "suhu" row);
                       ("noc_humidity", sensor_event "kelembapan" row)]
        | [] => []
        end);
   mkPollQuery pool sensor_data1_sql
     (fun rows =>
        match rows with
        | row :: _ => [("ups_temperature", sensor_event "suhu" row);
                       ("ups_humidity", sensor_event "kelembapan" row)]
        | [] => []
        end);
   mkPollQuery pool listrik_noc_sql
     (fun rows =>
        match rows with
        | row :: _ => [("electrical_data", Js.Object row)]
        | [] => []
        end);
   mkPollQuery pool api_asap_data_sql
     (fun rows =>
        match rows with
        | row :: _ => [("fire_smoke_data", Js.Object row)]
        | [] => []
        end);
   mkPollQuery accessLogsPool access_logs_sql
     (fun rows =>
        match rows with
        | _ :: _ => [("access_logs", Js.Array rows)]
        | [] => []
        end)].

Definition emit_all (evs : list (string * Js.Value)) : list Action :=
  map (fun ev => Emit (fst ev) (snd ev)) evs.

Fixpoint emit_events (evs : list (string * Js.Value)) : M unit :=
  match evs with
  | [] => ret tt
  | (topic, payload) :: later =>
      (io_emit topic payload;;; emit_events later)%js
  end.

(** The blocks [qs] run one after the other, without the [try]. *)
Fixpoint run_queries (env : Env) (st : Pools) (qs : list PollQuery) : M unit :=
  match qs with
  | [] => ret tt
  | q :: later =>
      (rows <- query env (from q st) (statement q) [];;
       emit_events (events q rows);;;
       run_queries env st later)%js
  end.

(* ================================================================== *)
(** ** The poll tick in the words of the specification *)
(* ================================================================== *)

(** The five queries of a tick in source order, once both pools exist. *)
Definition battery (main logs : Pool) : list (Pool * string) :=
  [(main, sensor_data_sql);
   (main, sensor_data1_sql);
   (main, listrik_noc_sql);
   (main, api_asap_data_sql);
   (logs, access_logs_sql)].

Definition query_order : list string :=
  [sensor_data_sql; sensor_data1_sql; listrik_noc_sql; api_asap_data_sql;
   access_logs_sql].

(** The answer the stores give to query number [j] of a tick started in
    world [w], counting from 0, if the tick gets that far. *)
Definition answer (env : Env) (main logs : Pool) (w : World) (j : nat)
  : Error + list Js.Obj :=
  match nth_error (battery main logs) j with
  | Some (p, sql) => run_query env (j + calls w) p sql []
  | None => inr []
  end.

(** The temperature and humidity topics: topic, statement, row field. *)
Definition sensor_topics : list (string * string * string) :=
  [("noc_temperature", sensor_data_sql, "suhu");
   ("noc_humidity", sensor_data_sql, "kelembapan");
   ("ups_temperature", sensor_data1_sql, "suhu");
   ("ups_humidity", sensor_data1_sql, "kelembapan")].

(** Per-query isolation as the specification words it: with both pools in
    place, a topic whose own query is always answered with rows is emitted
    in every tick, whatever happens to the other four queries. *)
Definition isolated_failure_handling : Prop :=
  forall (env : Env) (main logs : Pool) (w : World) (topic : string),
    In topic topic_order ->
    (forall n p params, exists row rows,
        run_query env n p (source_of topic) params = inr (row :: rows)) ->
    In topic (topics (tick_trace env (mkPools (Some main) (Some logs)) w)).

(** NaN for every non-numeric stored string, as the specification words
    it. *)
Definition non_numeric_gives_NaN : Prop :=
  forall (env : Env) (st : Pools) (w : World) (topic sql field : string)
         (p : Pool) (row : Js.Obj) (rows : list Js.Obj) (s : string),
    In (topic, sql, field) sensor_topics ->
    In (Query p sql [] (inr (row :: rows))) (tick_trace env st w) ->
    Js.get field row = Js.Str s ->
    Js.numeric_string s = false ->
    In (Emit topic (Js.Object [(field, Js.Num Js.NaN);
                               ("waktu", Js.get "waktu" row)]))
       (tick_trace env st w).

(** The timestamp an event payload carries. *)
Definition timestamp (payload : Js.Value) : Js.Scalar :=
  match payload with
  | Js.Object o => Js.get "waktu" o
  | Js.Array _ => Js.Undefined
  end.










(** The end of start-up once the primary pool's acquisition has settled,
    [before] being what was done until then. *)
Definition startup_end (before : list Action)
           (run : Result Pool * World * list Action)
  : Startup * World * list Action :=
  match run with
  | (Ok mainPool, w, t) =>
      (Established (mkPools (Some mainPool)
                            (Some (PoolOf access_logs_config))), w,
       before ++ t ++ [ConsoleLog AllEstablished])
  | (Throw e, w, t) =>
      (Exited 1, w,
       before ++ t ++ [ConsoleError (FatalConnectionError e); Exit 1])
  end.

(** *** Sample data *)

Definition w0 : World := mkWorld 0 0.

Definition sensor_row : Js.Obj :=
  [("id", Js.Num (Js.Dec false 7 0));
   ("suhu", Js.Str "21.5C");
   ("kelembapan", Js.Str "n/a");
   ("waktu", Js.Str "2024-05-01 10:00:00")].

Definition access_row : Js.Obj :=
  [("access_time", Js.Str "2024-05-01 09:59:58");
   ("access_granted", Js.Num (Js.Dec false 1 0));
   ("username", Js.Null);
   ("door_name", Js.Str "NOC")].

Definition user_row : Js.Obj :=
  [("id", Js.Num (Js.Dec false 1 0));
   ("username", Js.Str "admin");
   ("password", Js.Str "$2a$10$hash")].

(** A quiet environment: nothing configured, every call succeeds, every
    table holds [sensor_row], the only user is [user_row] with password
    [secret], and the only valid token is [header.payload.signature]. *)
Definition env_up : Env :=
  mkEnv
    (fun _ => None)
    (fun _ _ => None)
    (fun _ _ => None)
    (fun _ _ sql params =>
       if String.eqb sql users_sql then
         match params with
         | [Js.Str "admin"] => inr [user_row]
         | _ => inr []
         end
       else if String.eqb sql access_logs_sql then inr [access_row]
       else inr [sensor_row])
    (fun _ s _ => match s with
                  | Js.Str "secret" => inr true
                  | _ => inr false
                  end)
    (fun _ _ _ => "header.payload.signature")
    (fun _ token _ =>
       if String.eqb token "header.payload.signature"
       then inr [("userId", Js.Num (Js.Dec false 1 0));
                 ("username", Js.Str "admin")]
       else inl (mkError "invalid signature")).

Definition with_queries
  (run : nat -> Pool -> string -> list Js.Scalar -> Error + list Js.Obj)
  (env : Env) : Env :=
  mkEnv (getenv env) (create_pool env) (get_connection env) run
        (bcrypt_compare env) (jwt_sign env) (jwt_verify env).

(** The [sensor_data] table cannot be read; everything else is as in
    [env_up]. *)
Definition env_noc_down : Env :=
  with_queries
    (fun n p sql params =>
       if String.eqb sql sensor_data_sql
       then inl (mkError "ER_NO_SUCH_TABLE")
       else run_query env_up n p sql params)
    env_up.

(** The third external call, if it is a query, fails. *)
Definition env_third_fails : Env :=
  with_queries
    (fun n p sql params =>
       if (n =? 2)%nat then inl (mkError "ETIMEDOUT")
       else run_query env_up n p sql params)
    env_up.

(** The first two external calls, if they are queries, fail. *)
Definition env_two_failures : Env :=
  with_queries
    (fun n p sql params =>
       if (n <? 2)%nat then inl (mkError "ECONNRESET")
       else run_query env_up n p sql params)
    env_up.

(** No connection can be obtained from any pool. *)
Definition env_down : Env :=
  mkEnv (getenv env_up) (create_pool env_up)
        (fun _ _ => Some (mkError "ECONNREFUSED"))
        (run_query env_up) (bcrypt_compare env_up) (jwt_sign env_up)
        (jwt_verify env_up).

(** The access-log store is unreachable: no connection, no query. *)
Definition env_logs_down : Env :=
  mkEnv (getenv env_up) (create_pool env_up)
        (fun _ p =>
           let '(PoolOf cfg) := p in
           if String.eqb (database cfg) "rfid_access_control"
           then Some (mkError "ECONNREFUSED") else None)
        (fun n p sql params =>
           let '(PoolOf cfg) := p in
           if String.eqb (database cfg) "rfid_access_control"
           then inl (mkError "ECONNREFUSED")
           else run_query env_up n p sql params)
        (bcrypt_compare env_up) (jwt_sign env_up) (jwt_verify env_up).


(** [typeof v] *)
Definition typeof (v : Js.Scalar) : string :=
  match v with
  | Js.Undefined => "undefined"
  | Js.Null => "object"
  | Js.Bool _ => "boolean"
  | Js.Num _ => "number"
  | Js.Str _ => "string"
  end.

(** bcryptjs compares nothing but two strings: [compare] rejects with
    this error when either argument is of another type. *)
Definition bcryptjs_arguments (env : Env) : Prop :=
  forall n s hash,
    typeof s <> "string" \/ typeof hash <> "string" ->
    bcrypt_compare env n s hash
    = inl (mkError ("Illegal arguments: " ++ typeof s ++ ", " ++ typeof hash)).

(** As [env_up], with bcryptjs's refusal to compare anything but two
    strings. *)
Definition env_bcryptjs : Env :=
  mkEnv (getenv env_up) (create_pool env_up) (get_connection env_up)
        (run_query env_up)
        (fun n s hash =>
           match s, hash with
           | Js.Str _, Js.Str _ => bcrypt_compare env_up n s hash
           | _, _ =>
               inl (mkError ("Illegal arguments: " ++ typeof s ++ ", "
                               ++ typeof hash))
           end)
        (jwt_sign env_up) (jwt_verify env_up).

Definition pools_up : Pools :=
  mkPools (Some (PoolOf (main_config env_up))) (Some (PoolOf access_logs_config)).

(* ================================================================== *)
(** ** More ways to read a run *)
(* ================================================================== *)

(** The world a run leaves behind. *)
Definition world_after {A} (run : Result A * World * list Action) : World :=
  snd (fst run).

(** Connections obtained from a pool, and connections given back. *)
Definition obtained (t : list Action) : nat :=
  length (filter (fun a => match a with
                           | GetConnection _ None => true
                           | _ => false
                           end) t).

Definition released (t : list Action) : nat :=
  length (filter (fun a => match a with Release _ => true | _ => false end) t).

(** The lines written with [console.error]. *)
Fixpoint errors_logged (t : list Action) : list LogLine :=
  match t with
  | [] => []
  | ConsoleError line :: rest => line :: errors_logged rest
  | _ :: rest => errors_logged rest
  end.

(** The answer of the login route to an exception. *)
Definition internal_error : Response :=
  mkResponse 500 (Json (Js.Object [("error", Js.Str "Internal server error")])).

(** The body of the health route. *)
Definition health_body (database_state : string) : Body :=
  Json (Js.Object [("status", Js.Str "ok");
                   ("database", Js.Str database_state)]).

(** What a poll tick may do: ask a store, tell the subscribers, log an
    error. *)
Definition tick_action (a : Action) : bool :=
  match a with
  | Query _ _ _ _ | Emit _ _ | ConsoleError _ => true
  | _ => false
  end.

From Stdlib Require Import DecimalString.

(* ================================================================== *)
(** ** The dashboard: authentication context and login form *)
(* ================================================================== *)

Module Client.

(** *** js-cookie *)

(** A cookie as the browser keeps it: its value and the instant, in
    milliseconds, from which it is no longer returned. *)
Record Cookie : Type := mkCookie { value : string; expires : N }.

(** The cookies of the page, newest first. *)
Definition Jar : Type := list (string * Cookie).

Definition day_ms : N := 86400000.

(** [Cookies.remove(name)] *)
Definition Cookies_remove (name : string) (jar : Jar) : Jar :=
  filter (fun entry => negb (String.eqb (fst entry) name)) jar.

(** The expiry js-cookie writes for [{ expires: days }] at instant
    [today]: that many days later, in whole seconds. *)
Definition expiry (today days : N) : N :=
  ((today + days * day_ms) / 1000 * 1000)%N.

(** [Cookies.set(name, value, { expires: days })] at instant [today]. *)
Definition Cookies_set (today : N) (name value : string) (days : N)
           (jar : Jar) : Jar :=
  (name, mkCookie value (expiry today days)) :: Cookies_remove name jar.

(** [Cookies.get(name)] at instant [today]; [None] is [undefined]. *)
Definition Cookies_get (today : N) (name : string) (jar : Jar)
  : option string :=
  match find (fun entry => String.eqb (fst entry) name) jar with
  | Some (_, cookie) =>
      if (today <? expires cookie)%N then Some (value cookie) else None
  | None => None
  end.

(** *** AuthProvider *)

(** The two pieces of state of [AuthProvider]. *)
Record Auth : Type := mkAuth {
  isAuthenticated : bool;
  user : option string
}.

(** The provider's state, the page's cookies and what was written with
    [console.error]. *)
Record Session : Type := mkSession {
  jar : Jar;
  auth : Auth;
  errors : list Error
}.

(** Truthiness of a string that may be [undefined], and of a scalar. *)
Definition truthy_string (s : option string) : bool :=
  match s with
  | Some (String _ _) => true
  | _ => false
  end.

Definition truthy (v : Js.Scalar) : bool :=
  match v with
  | Js.Undefined | Js.Null => false
  | Js.Bool b => b
  | Js.Num Js.NaN => false
  | Js.Num (Js.Dec _ 0%N _) => false
  | Js.Num _ => true
  | Js.Str EmptyString => false
  | Js.Str _ => true
  end.

(** The provider as first rendered: [useState(false)], [useState(null)]. *)
Definition first_render (cookies : Jar) : Session :=
  mkSession cookies (mkAuth false None) [].

(** The effect run once after the first render. *)
Definition on_mount (today : N) (s : Session) : Session :=
  let token := Cookies_get today "auth_token" (jar s) in
  let savedUser := Cookies_get today "user" (jar s) in
  if truthy_string token && truthy_string savedUser
  then mkSession (jar s) (mkAuth true savedUser) (errors s)
  else s.

(** Opening the page at instant [today] with the cookies [cookies]. *)
Definition AuthProvider (today : N) (cookies : Jar) : Session :=
  on_mount today (first_render cookies).

(** [logout] *)
Definition logout (s : Session) : Session :=
  mkSession (Cookies_remove "user" (Cookies_remove "auth_token" (jar s)))
            (mkAuth false None) (errors s).

(** [useAuth]: the context, or the error thrown outside a provider. *)
Definition useAuth {A} (context : option A) : Result A :=
  match context with
  | Some value => Ok value
  | None => Throw (mkError "useAuth must be used within an AuthProvider")
  end.

Section Login.

(** [String(n)] for a number, which the model of numbers leaves open. *)
Variable number_to_string : Js.Number -> string.

(** The string js-cookie stores for a value. *)
Definition cookie_string (v : Js.Scalar) : string :=
  match v with
  | Js.Str s => s
  | Js.Num n => number_to_string n
  | Js.Bool true => "true"
  | Js.Bool false => "false"
  | Js.Null => "null"
  | Js.Undefined => "undefined"
  end.

(** [login(username, password)] at instant [today]. [reply] is how
    [axios.post] settles: rejected with an error, or resolved, in which
    case it holds [response.data.token]. The password only travels in the
    request. *)
Definition login (today : N) (reply : Error + Js.Scalar) (username : string)
           (s : Session) : Result unit * Session :=
  let caught error :=
    (Throw error, mkSession (jar s) (auth s) (errors s ++ [error])) in
  match reply with
  | inl error => caught error
  | inr token =>
      if truthy token
      then
        let jar1 :=
          Cookies_set today "auth_token" (cookie_string token) 7 (jar s) in
        let jar2 := Cookies_set today "user" username 7 jar1 in
        (Ok tt, mkSession jar2 (mkAuth true (Some username)) (errors s))
      else caught (mkError "Login failed")
  end.

(** *** The login form *)

Record Form : Type := mkForm {
  username : string;
  password : string;
  showPassword : bool;
  error : string;
  loading : bool
}.

(** What [handleSubmit] leaves: the form as shown while the request is in
    flight, the form at the end, the session, and the routes navigated
    to. *)
Record Submitted : Type := mkSubmitted {
  in_flight : Form;
  final : Form;
  session : Session;
  navigated : list string
}.

Definition handleSubmit (today : N) (reply : Error + Js.Scalar)
           (form : Form) (s : Session) : Submitted :=
  let started :=
    mkForm (username form) (password form) (showPassword form) "" true in
  let finished (message : string) :=
    mkForm (username form) (password form) (showPassword form) message false in
  match login today reply (username form) s with
  | (Ok _, s') => mkSubmitted started (finished "") s' ["/dashboard"]
  | (Throw _, s') =>
      mkSubmitted started (finished "Invalid username or password") s' []
  end.

End Login.

(** *** The form against the server *)

(** The body [axios.post] sends. *)
Definition login_request (form : Form) : Js.Obj :=
  [("username", Js.Str (username form));
   ("password", Js.Str (password form))].

Definition status_text (code : nat) : string :=
  NilEmpty.string_of_uint (Nat.to_uint code).

(** How [axios.post] settles on a response: it rejects outside 2xx, and
    otherwise the caller reads [response.data.token]. *)
Definition axios_post (response : Response) : Error + Js.Scalar :=
  if ((200 <=? status response) && (status response <? 300))%nat
  then inr (match body response with
            | Json (Js.Object data) => Js.get "token" data
            | _ => Js.Undefined
            end)
  else inl (mkError ("Request failed with status code "
                       ++ status_text (status response))).

End Client.


(** Submitting the form to the login route of the server in state [st]:
    the route's response is what [axios.post] settles on. *)
Definition submit_to_server (number_to_string : Js.Number -> string)
           (env : Env) (st : Pools) (w : World) (today : N)
           (form : Client.Form) (s : Client.Session) : Client.Submitted :=
  match result_of (login env st (Client.login_request form) w) with
  | Ok response =>
      Client.handleSubmit number_to_string today
                          (Client.axios_post response) form s
  | Throw e => Client.handleSubmit number_to_string today (inl e) form s
  end.

(* ================================================================== *)
(** * Properties *)
(* ================================================================== *)

(** Unfolds a tick down to the oracle's answers. *)
Ltac unfold_tick :=
  cbv beta iota zeta delta
    [tick_trace fetchAndEmitData try_catch bind query external ret throw act
     io_emit console_error trace_of result_of pool accessLogsPool
     calls now app fst snd].

(** Runs a tick symbolically: one case per answer of each query reached. *)
Ltac run_tick :=
  unfold_tick;
  repeat (match goal with
          | |- context [match ?o with Some _ => _ | None => _ end] =>
              is_var o; destruct o
          | |- context [match run_query ?e ?n ?p ?q ?ps with _ => _ end] =>
              destruct (run_query e n p q ps) as [? | [ | ? ?]]
          end;
          cbv beta iota zeta delta [calls now app fst snd]).

(** Runs a tick whose answers are known from hypotheses. *)
Ltac replay_tick :=
  unfold_tick;
  repeat (match goal with
          | H : run_query ?e ?n ?p ?q ?ps = _
            |- context [run_query ?e ?n ?p ?q ?ps] => rewrite H
          end;
          cbv beta iota zeta delta [calls now app fst snd]).

(** ** One failure handler for the five queries (C1, C9) *)


(** With the third query failing the tick asks three queries and tells the
    topics of the first two. *)
Example tick_order_with_third_failing :
  steps (tick_trace env_third_fails pools_up w0)
  = [Ask sensor_data_sql; Tell "noc_temperature"; Tell "noc_humidity";
     Ask sensor_data1_sql; Tell "ups_temperature"; Tell "ups_humidity";
     Ask listrik_noc_sql].
Proof. reflexivity. Qed.

(** C1 as stated fails: with the [sensor_data] table unreadable and a row
    in every other table, a tick emits nothing, [electrical_data]
    included. *)
Lemma isolated_failure_handling_fails : ~ isolated_failure_handling.
Proof.
  intro H.
  specialize (H env_noc_down (PoolOf (main_config env_up))
                (PoolOf access_logs_config) w0 "electrical_data").
  assert (Hin : In "electrical_data" topic_order) by (vm_compute; tauto).
  specialize (H Hin). clear Hin.
  assert (Hrows : forall n p params, exists row rows,
             run_query env_noc_down n p (source_of "electrical_data") params
             = inr (row :: rows)).
  { intros n p params. exists sensor_row, []. reflexivity. }
  specialize (H Hrows). vm_compute in H. exact H.
Qed.

(** C1 (amended): the five queries of a tick share one failure handler.
    When query number [k] is the first to fail, the tick itself still
    succeeds, the queries up to [k] are the only ones asked, every topic
    whose query came back with rows before the failure is emitted, and the
    last thing the tick does is to log the error. *)
Theorem tick_stops_at_first_failure
  (env : Env) (main logs : Pool) (w : World) (k : nat) (e : Error) :
  let st := mkPools (Some main) (Some logs) in
  let t := tick_trace env st w in
  k < 5 ->
  (forall j, j < k -> exists rows, answer env main logs w j = inr rows) ->
  answer env main logs w k = inl e ->
  result_of (fetchAndEmitData env st w) = Ok tt
  /\ queried t = firstn (S k) query_order
  /\ topics t
     = filter (fun topic => answered_with_rows t (source_of topic)) topic_order
  /\ last t (Exit 0) = ConsoleError (PollError e).
Proof.
  intros st t Hk Hbefore Hfail. subst st t. destruct w as [c n].
  assert (H0 := Hbefore 0). assert (H1 := Hbefore 1).
  assert (H2 := Hbefore 2). assert (H3 := Hbefore 3). clear Hbefore.
  unfold answer in *. cbn [nth_error battery Nat.add calls] in *.
  destruct k as [ | [ | [ | [ | [ | k]]]]]; try lia.
  all: cbn [nth_error battery Nat.add calls] in Hfail.
  all: repeat match goal with
         | H : ?a < ?b -> _ |- _ =>
             first [ assert (Hlt : a < b) by lia;
                     destruct (H Hlt) as [[ | ? ?] ?]; clear H Hlt
                   | clear H ]
         end.
  all: replay_tick.
  all: vm_compute; repeat split; reflexivity.
Qed.

Lemma tick_stops_at_first_failure_witness :
  let main := PoolOf (main_config env_up) in
  let logs := PoolOf access_logs_config in
  let t := tick_trace env_third_fails (mkPools (Some main) (Some logs)) w0 in
  result_of (fetchAndEmitData env_third_fails
               (mkPools (Some main) (Some logs)) w0) = Ok tt
  /\ queried t = [sensor_data_sql; sensor_data1_sql; listrik_noc_sql]
  /\ topics t
     = filter (fun topic => answered_with_rows t (source_of topic)) topic_order
  /\ last t (Exit 0) = ConsoleError (PollError (mkError "ETIMEDOUT")).
Proof.
  apply (tick_stops_at_first_failure
           env_third_fails (PoolOf (main_config env_up))
           (PoolOf access_logs_config) w0 2 (mkError "ETIMEDOUT")).
  - lia.
  - intros [ | [ | j]] Hj; [now exists [sensor_row] .. | lia].
  - reflexivity.
Defined.

Example tick_with_third_query_failing :
  topics (tick_trace env_third_fails pools_up w0)
  = ["noc_temperature"; "noc_humidity"; "ups_temperature"; "ups_humidity"].
Proof. reflexivity. Qed.

(** The query that failed is asked again on the next tick. *)
Example next_tick_starts_over :
  topics (trace_of (poll env_third_fails pools_up 2 w0))
  = ["noc_temperature"; "noc_humidity"; "ups_temperature"; "ups_humidity"]
      ++ topic_order.
Proof. reflexivity. Qed.

Example tick_with_everything_up :
  topics (tick_trace env_up pools_up w0) = topic_order
  /\ steps (tick_trace env_up pools_up w0) = script.
Proof. split; reflexivity. Qed.

(** ** parseFloat *)

Section ParseFloat.
Import Js.

Lemma digits_from_grows (s : string) :
  forall count acc, (count <= fst (fst (digits_from count acc s)))%nat.
Proof.
  induction s as [ | c rest IH]; intros count acc; simpl.
  - lia.
  - destruct (is_digit c); simpl; [ | lia].
    specialize (IH (S count) (acc * 10 + digit_value c)%N). lia.
Qed.

Lemma digits_from_digit (c : ascii) (rest : string) (acc : N) :
  is_digit c = true ->
  exists count value after,
    digits_from 0 acc (String c rest) = (S count, value, after).
Proof.
  intros Hc. simpl. rewrite Hc.
  pose proof (digits_from_grows rest 1 (acc * 10 + digit_value c)%N) as Hle.
  destruct (digits_from 1 (acc * 10 + digit_value c)%N rest)
    as [[[ | count] value] after]; simpl in Hle; [lia | ].
  now exists count, value, after.
Qed.

Lemma prefix_Infinity_head (c : ascii) (rest : string) :
  String.prefix "Infinity" (String c rest) = true -> c = "I"%char.
Proof.
  change (String.prefix "Infinity" (String c rest))
    with (if ascii_dec "I" c then String.prefix "nfinity" rest else false).
  destruct (ascii_dec "I" c) as [<- | ]; [reflexivity | discriminate].
Qed.

Lemma exponent_part_pair (s : string) :
  exists e rest, exponent_part s = (e, rest).
Proof. destruct (exponent_part s) as [e rest]. now exists e, rest. Qed.

(** A literal is read exactly when the string starts like one, and what is
    read is never NaN. *)
Lemma unsigned_literal_start (neg : bool) (s : string) :
  match unsigned_literal neg s with
  | Some (n, _) => starts_unsigned s = true /\ n <> NaN
  | None => starts_unsigned s = false
  end.
Proof.
  unfold unsigned_literal, strip_prefix.
  destruct (String.prefix "Infinity" s) eqn:Hinf.
  - destruct s as [ | c rest]; [discriminate | ].
    apply prefix_Infinity_head in Hinf as Hc. subst c.
    split; [exact Hinf | discriminate].
  - destruct s as [ | c rest]; [reflexivity | ].
    unfold starts_unsigned. rewrite Hinf.
    destruct (is_digit c) eqn:Hc.
    + destruct (digits_from_digit c rest 0 Hc) as (count & value & after & ->).
      destruct after as [ | d frac].
      * destruct (exponent_part_pair "") as (e & r & ->).
        split; [reflexivity | discriminate].
      * destruct (Ascii.eqb d ".").
        -- destruct (digits_from 0 value frac) as [[fcount mant] after_frac].
           destruct (exponent_part_pair after_frac) as (e & r & ->).
           split; [reflexivity | discriminate].
        -- destruct (exponent_part_pair (String d frac)) as (e & r & ->).
           split; [reflexivity | discriminate].
    + simpl digits_from. rewrite Hc.
      destruct (Ascii.eqb c ".") eqn:Hdot; [ | reflexivity].
      destruct rest as [ | d rest']; [reflexivity | ].
      destruct (is_digit d) eqn:Hd.
      * destruct (digits_from_digit d rest' 0 Hd)
          as (count & value & after & ->).
        destruct (exponent_part_pair after) as (e & r & ->).
        split; [reflexivity | discriminate].
      * simpl. rewrite Hd. reflexivity.
Qed.

Lemma decimal_prefix_start (s : string) :
  match decimal_prefix s with
  | Some (n, _) => starts_literal s = true /\ n <> NaN
  | None => starts_literal s = false
  end.
Proof.
  destruct s as [ | c rest]; [reflexivity | ].
  unfold decimal_prefix, starts_literal.
  destruct (Ascii.eqb c "-"); [apply unsigned_literal_start | ].
  destruct (Ascii.eqb c "+"); apply unsigned_literal_start.
Qed.

(** [parseFloat] of a string is NaN exactly when the string, leading white
    space apart, does not start like a decimal literal. *)
Lemma parseFloat_string_NaN (s : string) :
  parseFloat_string s = NaN <-> starts_literal (trim_start s) = false.
Proof.
  unfold parseFloat_string.
  pose proof (decimal_prefix_start (trim_start s)) as H.
  destruct (decimal_prefix (trim_start s)) as [[n rest] | ].
  - destruct H as [Hstart Hn]. rewrite Hstart. split; [ | discriminate].
    intros ->. now contradiction Hn.
  - rewrite H. split; reflexivity.
Qed.

Example parseFloat_plain : Js.parseFloat_string "23.5" = Js.Dec false 235 (-1).
Proof. reflexivity. Qed.

Example parseFloat_exp : Js.parseFloat_string "  -1.25e3xyz" = Js.Dec true 125 1.
Proof. reflexivity. Qed.

Example parseFloat_dangling_e : Js.parseFloat_string "7e" = Js.Dec false 7 0.
Proof. reflexivity. Qed.

Example parseFloat_lone_dot : Js.parseFloat_string "." = Js.NaN.
Proof. reflexivity. Qed.

Example parseFloat_hex : Js.parseFloat_string "0x1F" = Js.Dec false 0 0.
Proof. reflexivity. Qed.

Example parseFloat_infinity : Js.parseFloat_string "-Infinity" = Js.Inf true.
Proof. reflexivity. Qed.

Example parseFloat_null : Js.parseFloat Js.Null = Js.NaN.
Proof. reflexivity. Qed.

Example parseFloat_unit_suffix :
  Js.parseFloat_string "21.5C" = Js.Dec false 215 (-1).
Proof. reflexivity. Qed.

Example parseFloat_signs :
  Js.parseFloat_string "+.5e-2" = Js.Dec false 5 (-3)
  /\ Js.parseFloat_string "-12.e+3" = Js.Dec true 12 3
  /\ Js.parseFloat_string "--5" = Js.NaN
  /\ Js.parseFloat_string "e5" = Js.NaN.
Proof. repeat split; reflexivity. Qed.

Example numeric_string_examples :
  Js.numeric_string " 23.5 " = true
  /\ Js.numeric_string "21.5C" = false
  /\ Js.numeric_string "1,5" = false
  /\ Js.numeric_string "n/a" = false.
Proof. repeat split; reflexivity. Qed.

End ParseFloat.

(** ** What a tick emits *)

(** [fetchAndEmitData] is its five blocks in sequence under one handler. *)
Lemma fetchAndEmitData_blocks (env : Env) (st : Pools) (w : World) :
  fetchAndEmitData env st w
  = try_catch (run_queries env st poll_queries)
              (fun error => console_error (PollError error)) w.
Proof.
  destruct st as [main logs], w as [c n].
  cbv beta iota zeta delta
    [run_queries poll_queries from statement events emit_events].
  run_tick; reflexivity.
Qed.

Lemma emit_events_run (evs : list (string * Js.Value)) (w : World) :
  emit_events evs w = (Ok tt, w, emit_all evs).
Proof.
  induction evs as [ | [topic payload] later IH]; [reflexivity | ].
  cbn [emit_events]. unfold bind, io_emit, act. now rewrite IH.
Qed.

Lemma run_queries_step (env : Env) (st : Pools) (q : PollQuery)
      (later : list PollQuery) (w : World) :
  run_queries env st (q :: later) w
  = match from q st with
    | None => (Throw (undefined_pool_error "query"), w, [])
    | Some p =>
        let w1 := mkWorld (S (calls w)) (now w) in
        match run_query env (calls w) p (statement q) [] with
        | inl e => (Throw e, w1, [Query p (statement q) [] (inl e)])
        | inr rows =>
            let '(r, w2, t) := run_queries env st later w1 in
            (r, w2,
             Query p (statement q) [] (inr rows)
               :: emit_all (events q rows) ++ t)
        end
    end.
Proof.
  cbn [run_queries]. unfold bind at 1. unfold query.
  destruct (from q st) as [p | ]; [ | reflexivity].
  unfold bind at 1, external at 1.
  destruct (run_query env (calls w) p (statement q) []) as [e | rows];
    [reflexivity | ].
  cbv beta iota zeta. unfold ret at 1. unfold bind at 1.
  rewrite emit_events_run.
  destruct (run_queries env st later _) as [[r w2] t]. reflexivity.
Qed.

Lemma in_emit_all (topic : string) (payload : Js.Value)
      (evs : list (string * Js.Value)) :
  In (Emit topic payload) (emit_all evs) <-> In (topic, payload) evs.
Proof.
  unfold emit_all. rewrite in_map_iff. split.
  - intros ([t p] & Heq & Hin). now injection Heq as -> ->.
  - intros Hin. now exists (topic, payload).
Qed.

Lemma emit_all_no_query (p : Pool) (sql : string) (params : list Js.Scalar)
      (result : Error + list Js.Obj) (evs : list (string * Js.Value)) :
  ~ In (Query p sql params result) (emit_all evs).
Proof.
  unfold emit_all. rewrite in_map_iff. intros (ev & Heq & _). discriminate.
Qed.

(** In a run of blocks, a query that comes back with rows has all its
    events in the trace. *)
Lemma run_queries_rows_emitted (env : Env) (st : Pools) (p : Pool)
      (sql : string) (params : list Js.Scalar) (rows : list Js.Obj)
      (qs : list PollQuery) :
  forall w,
    In (Query p sql params (inr rows)) (trace_of (run_queries env st qs w)) ->
    exists q,
      In q qs /\ statement q = sql /\ params = []
      /\ forall topic payload,
          In (topic, payload) (events q rows) ->
          In (Emit topic payload) (trace_of (run_queries env st qs w)).
Proof.
  induction qs as [ | q later IH]; intros w Hin; [contradiction | ].
  rewrite run_queries_step in *.
  destruct (from q st) as [p' | ]; [ | contradiction].
  cbv zeta in *.
  destruct (run_query env (calls w) p' (statement q) []) as [e | rows'].
  - destruct Hin as [Hin | []]. discriminate.
  - specialize (IH (mkWorld (S (calls w)) (now w))).
    destruct (run_queries env st later _) as [[r w2] t].
    unfold trace_of in *. cbn [snd] in *.
    destruct Hin as [Heq | Hin].
    + injection Heq as <- <- <- <-.
      exists q. repeat split; [now left | ].
      intros topic payload Hev. right. apply in_or_app. left.
      now apply in_emit_all.
    + apply in_app_or in Hin as [Hin | Hin];
        [now apply emit_all_no_query in Hin | ].
      destruct (IH Hin) as (q' & Hq' & Hsql & Hparams & Hall).
      exists q'. repeat split; [now right | assumption | assumption | ].
      intros topic payload Hev. right. apply in_or_app. right. now apply Hall.
Qed.

(** In a run of blocks, every event comes from the rows of a query of the
    same run. *)
Lemma run_queries_emit_source (env : Env) (st : Pools) (topic : string)
      (payload : Js.Value) (qs : list PollQuery) :
  forall w,
    In (Emit topic payload) (trace_of (run_queries env st qs w)) ->
    exists q p rows,
      In q qs
      /\ In (Query p (statement q) [] (inr rows))
            (trace_of (run_queries env st qs w))
      /\ In (topic, payload) (events q rows).
Proof.
  induction qs as [ | q later IH]; intros w Hin; [contradiction | ].
  rewrite run_queries_step in *.
  destruct (from q st) as [p' | ]; [ | contradiction].
  cbv zeta in *.
  destruct (run_query env (calls w) p' (statement q) []) as [e | rows'].
  - destruct Hin as [Hin | []]. discriminate.
  - specialize (IH (mkWorld (S (calls w)) (now w))).
    destruct (run_queries env st later _) as [[r w2] t].
    unfold trace_of in *. cbn [snd] in *.
    destruct Hin as [Heq | Hin]; [discriminate | ].
    apply in_app_or in Hin as [Hin | Hin].
    + exists q, p', rows'. repeat split; [now left | now left | ].
      now apply in_emit_all.
    + destruct (IH Hin) as (q' & p & rows & Hq' & Hquery & Hev).
      exists q', p, rows. repeat split; [now right | | assumption].
      right. apply in_or_app. now right.
Qed.

(** The trace of a tick is the trace of its blocks, followed by the line
    the handler logs when one of them throws. *)
Lemma tick_trace_blocks (env : Env) (st : Pools) (w : World) :
  exists tail,
    tick_trace env st w
    = trace_of (run_queries env st poll_queries w) ++ tail
    /\ (tail = [] \/ exists e, tail = [ConsoleError (PollError e)]).
Proof.
  unfold tick_trace. rewrite fetchAndEmitData_blocks. unfold try_catch.
  destruct (run_queries env st poll_queries w) as [[[[] | e] w'] t];
    unfold trace_of; cbn.
  - exists []. rewrite app_nil_r. split; [reflexivity | now left].
  - exists [ConsoleError (PollError e)]. split; [reflexivity | right].
    now exists e.
Qed.

Lemma in_tick_trace (env : Env) (st : Pools) (w : World) (a : Action) :
  (forall e, a <> ConsoleError (PollError e)) ->
  In a (tick_trace env st w)
  <-> In a (trace_of (run_queries env st poll_queries w)).
Proof.
  intros Hnot.
  destruct (tick_trace_blocks env st w) as (tail & -> & [-> | (e & ->)]).
  - now rewrite app_nil_r.
  - rewrite in_app_iff. split; [ | tauto].
    intros [Hin | [Heq | []]]; [assumption | ].
    now contradiction (Hnot e).
Qed.

(** Every query of a tick that comes back with rows has its events emitted
    in that tick. *)
Lemma tick_rows_emitted (env : Env) (st : Pools) (w : World)
      (p : Pool) (sql : string) (params : list Js.Scalar)
      (row : Js.Obj) (rows : list Js.Obj) :
  let t := tick_trace env st w in
  In (Query p sql params (inr (row :: rows))) t ->
  (sql = sensor_data_sql
   /\ In (Emit "noc_temperature" (sensor_event "suhu" row)) t
   /\ In (Emit "noc_humidity" (sensor_event "kelembapan" row)) t)
  \/ (sql = sensor_data1_sql
      /\ In (Emit "ups_temperature" (sensor_event "suhu" row)) t
      /\ In (Emit "ups_humidity" (sensor_event "kelembapan" row)) t)
  \/ (sql = listrik_noc_sql /\ In (Emit "electrical_data" (Js.Object row)) t)
  \/ (sql = api_asap_data_sql
      /\ In (Emit "fire_smoke_data" (Js.Object row)) t)
  \/ (sql = access_logs_sql
      /\ In (Emit "access_logs" (Js.Array (row :: rows))) t).
Proof.
  cbv zeta. intros Hin.
  assert (Hemit : forall topic payload,
             In (Emit topic payload)
                (trace_of (run_queries env st poll_queries w)) ->
             In (Emit topic payload) (tick_trace env st w)).
  { intros topic payload. apply in_tick_trace. discriminate. }
  apply in_tick_trace in Hin; [ | discriminate].
  apply run_queries_rows_emitted in Hin as (q & Hq & <- & _ & Hall).
  cbn [poll_queries In] in Hq.
  destruct Hq as [<- | [<- | [<- | [<- | [<- | []]]]]]; cbn in Hall.
  - left. repeat split; apply Hemit, Hall; cbn; tauto.
  - right; left. repeat split; apply Hemit, Hall; cbn; tauto.
  - do 2 right; left. repeat split; apply Hemit, Hall; cbn; tauto.
  - do 3 right; left. repeat split; apply Hemit, Hall; cbn; tauto.
  - do 4 right. repeat split; apply Hemit, Hall; cbn; tauto.
Qed.

(** Every event of a tick is built from the rows of a query of that
    tick. *)
Lemma tick_emit_source (env : Env) (st : Pools) (w : World)
      (topic : string) (payload : Js.Value) :
  let t := tick_trace env st w in
  In (Emit topic payload) t ->
  exists p sql row rows,
    In (Query p sql [] (inr (row :: rows))) t
    /\ sql = source_of topic
    /\ ((exists field, In (topic, sql, field) sensor_topics
                       /\ payload = sensor_event field row)
        \/ ((topic = "electrical_data" \/ topic = "fire_smoke_data")
            /\ payload = Js.Object row)
        \/ (topic = "access_logs" /\ payload = Js.Array (row :: rows))).
Proof.
  cbv zeta. intros Hin.
  apply in_tick_trace in Hin; [ | discriminate].
  apply run_queries_emit_source in Hin as (q & p & rows & Hq & Hquery & Hev).
  apply in_tick_trace in Hquery; [ | discriminate].
  destruct rows as [ | row rows].
  { cbn [poll_queries In] in Hq.
    destruct Hq as [<- | [<- | [<- | [<- | [<- | []]]]]]; contradiction. }
  exists p, (statement q), row, rows. split; [exact Hquery | ].
  cbn [poll_queries In] in Hq.
  destruct Hq as [<- | [<- | [<- | [<- | [<- | []]]]]];
    cbn [events statement In] in *.
  - destruct Hev as [Hev | [Hev | []]]; injection Hev as <- <-;
      (split; [reflexivity | left]);
      [exists "suhu" | exists "kelembapan"]; split;
        first [reflexivity | cbn; tauto].
  - destruct Hev as [Hev | [Hev | []]]; injection Hev as <- <-;
      (split; [reflexivity | left]);
      [exists "suhu" | exists "kelembapan"]; split;
        first [reflexivity | cbn; tauto].
  - destruct Hev as [Hev | []]; injection Hev as <- <-.
    split; [reflexivity | right; left]. split; [now left | reflexivity].
  - destruct Hev as [Hev | []]; injection Hev as <- <-.
    split; [reflexivity | right; left]. split; [now right | reflexivity].
  - destruct Hev as [Hev | []]; injection Hev as <- <-.
    split; [reflexivity | right; right]. split; reflexivity.
Qed.

(** ** Sensor values (C2) *)

(** C2 as stated fails: the stored temperature [21.5C] is not a numeric
    string, and the event carries 21.5, not NaN. *)
Lemma non_numeric_gives_NaN_fails : ~ non_numeric_gives_NaN.
Proof.
  intro H.
  specialize (H env_up pools_up w0 "noc_temperature" sensor_data_sql "suhu"
                (PoolOf (main_config env_up)) sensor_row [] "21.5C").
  assert (Hin : In (Emit "noc_temperature"
                      (Js.Object [("suhu", Js.Num Js.NaN);
                                  ("waktu", Js.get "waktu" sensor_row)]))
                   (tick_trace env_up pools_up w0)).
  { apply H; [cbn; tauto | vm_compute; tauto | reflexivity | reflexivity]. }
  vm_compute in Hin.
  repeat (destruct Hin as [Hin | Hin]; try discriminate Hin).
  exact Hin.
Qed.

(** C2 (amended): the temperature and humidity events of a sensor row are
    always emitted, with the value that [parseFloat] reads from the stored
    field; for a stored string that value is NaN exactly when the string,
    after leading white space, does not start with a decimal literal. *)
Theorem sensor_events_emitted
        (env : Env) (st : Pools) (w : World) (topic sql field : string)
        (p : Pool) (row : Js.Obj) (rows : list Js.Obj) :
  In (topic, sql, field) sensor_topics ->
  In (Query p sql [] (inr (row :: rows))) (tick_trace env st w) ->
  In (Emit topic (sensor_event field row)) (tick_trace env st w)
  /\ forall s,
      Js.get field row = Js.Str s ->
      sensor_event field row
      = Js.Object [(field, Js.Num (Js.parseFloat_string s));
                   ("waktu", Js.get "waktu" row)]
      /\ (Js.parseFloat_string s = Js.NaN
          <-> Js.starts_literal (Js.trim_start s) = false).
Proof.
  intros Htopic Hquery. split.
  - apply tick_rows_emitted in Hquery.
    cbn [sensor_topics In] in Htopic.
    destruct Htopic as [Heq | [Heq | [Heq | [Heq | []]]]];
      injection Heq as <- <- <-;
      destruct Hquery as [H | [H | [H | [H | H]]]];
      destruct H as [Hsql H]; try discriminate Hsql; tauto.
  - intros s Hs. split; [ | apply parseFloat_string_NaN].
    unfold sensor_event. now rewrite Hs.
Qed.

Lemma sensor_events_emitted_witness :
  In (Emit "noc_humidity"
        (Js.Object [("kelembapan", Js.Num Js.NaN);
                    ("waktu", Js.Str "2024-05-01 10:00:00")]))
     (tick_trace env_up pools_up w0)
  /\ Js.starts_literal (Js.trim_start "n/a") = false.
Proof.
  assert (Htopic : In ("noc_humidity", sensor_data_sql, "kelembapan")
                      sensor_topics) by (cbn; tauto).
  assert (Hquery : In (Query (PoolOf (main_config env_up)) sensor_data_sql []
                         (inr [sensor_row]))
                      (tick_trace env_up pools_up w0))
    by (vm_compute; tauto).
  destruct (sensor_events_emitted env_up pools_up w0 _ _ _ _ _ _
                                  Htopic Hquery) as [Hemit Hvalue].
  split; [exact Hemit | reflexivity].
Defined.

(** ** Timestamps (C8) *)

Lemma run_queries_clock (env : Env) (st : Pools) (qs : list PollQuery) :
  forall c n1 n2,
    result_of (run_queries env st qs (mkWorld c n1))
    = result_of (run_queries env st qs (mkWorld c n2))
    /\ trace_of (run_queries env st qs (mkWorld c n1))
       = trace_of (run_queries env st qs (mkWorld c n2)).
Proof.
  induction qs as [ | q later IH]; intros c n1 n2; [now split | ].
  rewrite !run_queries_step. cbn [calls now].
  destruct (from q st) as [p | ]; [ | now split].
  cbv zeta.
  destruct (run_query env c p (statement q) []) as [e | rows]; [now split | ].
  destruct (IH (S c) n1 n2) as [Hr Ht].
  destruct (run_queries env st later (mkWorld (S c) n1)) as [[r1 w1] t1].
  destruct (run_queries env st later (mkWorld (S c) n2)) as [[r2 w2] t2].
  unfold result_of, trace_of in *. cbn in *. now subst.
Qed.

Lemma sensor_event_timestamp (field : string) (row : Js.Obj) :
  field = "suhu" \/ field = "kelembapan" ->
  timestamp (sensor_event field row) = Js.get "waktu" row.
Proof. intros [-> | ->]; reflexivity. Qed.

(** C8: every event of a poll tick is built from a row that a query of the
    same tick returned: its payload is the row list, the row itself, or a
    sensor reading whose timestamp is the row's [waktu]; and the events of
    a tick do not depend on the wall clock. *)
Theorem event_timestamps_from_rows
        (env : Env) (st : Pools) (w : World)
        (topic : string) (payload : Js.Value) :
  In (Emit topic payload) (tick_trace env st w) ->
  (exists p row rows,
      In (Query p (source_of topic) [] (inr (row :: rows)))
         (tick_trace env st w)
      /\ (payload = Js.Array (row :: rows)
          \/ payload = Js.Object row
          \/ (exists field, payload = sensor_event field row)
             /\ timestamp payload = Js.get "waktu" row))
  /\ forall clock,
      tick_trace env st (mkWorld (calls w) clock) = tick_trace env st w.
Proof.
  intros Hin. split.
  - apply tick_emit_source in Hin
      as (p & sql & row & rows & Hquery & -> & Hpayload).
    exists p, row, rows. split; [exact Hquery | ].
    destruct Hpayload as [(field & Hfield & ->) | [[_ ->] | [_ ->]]].
    + right; right. split; [now exists field | ].
      apply sensor_event_timestamp.
      cbn [sensor_topics In] in Hfield.
      destruct Hfield as [H | [H | [H | [H | []]]]];
        injection H as _ _ <-; tauto.
    + right; now left.
    + now left.
  - intros clock. destruct w as [c n]. cbn [calls].
    unfold tick_trace. rewrite !fetchAndEmitData_blocks. unfold try_catch.
    destruct (run_queries_clock env st poll_queries c clock n) as [Hr Ht].
    destruct (run_queries env st poll_queries (mkWorld c clock))
      as [[r1 w1] t1].
    destruct (run_queries env st poll_queries (mkWorld c n)) as [[r2 w2] t2].
    unfold result_of, trace_of in *. cbn in *. subst.
    destruct r2; reflexivity.
Qed.

Lemma event_timestamps_from_rows_witness :
  exists p row rows,
    In (Query p (source_of "ups_temperature") [] (inr (row :: rows)))
       (tick_trace env_up pools_up w0)
    /\ (Js.Object [("suhu", Js.Num (Js.Dec false 215 (-1)));
                   ("waktu", Js.Str "2024-05-01 10:00:00")]
        = Js.Array (row :: rows)
        \/ Js.Object [("suhu", Js.Num (Js.Dec false 215 (-1)));
                      ("waktu", Js.Str "2024-05-01 10:00:00")]
           = Js.Object row
        \/ (exists field,
               Js.Object [("suhu", Js.Num (Js.Dec false 215 (-1)));
                          ("waktu", Js.Str "2024-05-01 10:00:00")]
               = sensor_event field row)
           /\ timestamp
                (Js.Object [("suhu", Js.Num (Js.Dec false 215 (-1)));
                            ("waktu", Js.Str "2024-05-01 10:00:00")])
              = Js.get "waktu" row).
Proof.
  assert (Hin : In (Emit "ups_temperature"
                      (Js.Object [("suhu", Js.Num (Js.Dec false 215 (-1)));
                                  ("waktu", Js.Str "2024-05-01 10:00:00")]))
                   (tick_trace env_up pools_up w0))
    by (vm_compute; tauto).
  exact (proj1 (event_timestamps_from_rows env_up pools_up w0 _ _ Hin)).
Defined.

(** ** The access-log route (C3) *)

(** C3: with the access-log pool in place, [GET /api/access-logs] answers
    with the rows of the first of its three attempts that succeeds, as a
    JSON array, and with HTTP 500 and an [error]/[details] body when all
    three fail; the attempts are one second apart. *)
Theorem access_logs_retries (env : Env) (st : Pools) (p : Pool) (w : World) :
  accessLogsPool st = Some p ->
  let attempt k := run_query env (k + calls w) p access_logs_sql [] in
  let run := get_access_logs env st w in
  (forall rows,
      attempt 0 = inr rows ->
      result_of run = Ok (Some (mkResponse 200 (Json (Js.Array rows)))))
  /\ (forall e0 rows,
         attempt 0 = inl e0 -> attempt 1 = inr rows ->
         result_of run = Ok (Some (mkResponse 200 (Json (Js.Array rows)))))
  /\ (forall e0 e1 rows,
         attempt 0 = inl e0 -> attempt 1 = inl e1 -> attempt 2 = inr rows ->
         result_of run = Ok (Some (mkResponse 200 (Json (Js.Array rows))))
         /\ sleeps (trace_of run) = [1000; 1000])
  /\ (forall e0 e1 e2,
         attempt 0 = inl e0 -> attempt 1 = inl e1 -> attempt 2 = inl e2 ->
         result_of run
         = Ok (Some (mkResponse 500
                       (Json (Js.Object
                                [("error", Js.Str "Failed to fetch access logs");
                                 ("details", Js.Str (message e2))]))))
         /\ queried (trace_of run)
            = [access_logs_sql; access_logs_sql; access_logs_sql]).
Proof.
  intros Hpool attempt run. subst attempt run.
  destruct st as [main logs], w as [c n]. cbn in Hpool. subst logs.
  cbn [Nat.add calls].
  repeat split; intros;
    cbv beta iota zeta delta
      [get_access_logs access_logs_loop try_catch bind query external ret
       throw act sleep console_error res_json res_status_json result_of
       trace_of accessLogsPool calls now fst snd Nat.eqb Nat.sub];
    repeat (match goal with
            | H : run_query ?e ?k ?q ?s ?ps = _
              |- context [run_query ?e ?k ?q ?s ?ps] => rewrite H
            end;
            cbv beta iota zeta delta [calls now app fst snd]);
    reflexivity.
Qed.

Lemma access_logs_retries_witness :
  result_of (get_access_logs env_two_failures pools_up w0)
  = Ok (Some (mkResponse 200 (Json (Js.Array [access_row]))))
  /\ sleeps (trace_of (get_access_logs env_two_failures pools_up w0))
     = [1000; 1000].
Proof.
  assert (Hpool : accessLogsPool pools_up = Some (PoolOf access_logs_config))
    by reflexivity.
  destruct (access_logs_retries env_two_failures pools_up _ w0 Hpool)
    as (_ & _ & Hthird & _).
  apply (Hthird (mkError "ECONNRESET") (mkError "ECONNRESET") [access_row]);
    reflexivity.
Defined.

(** While the pool variable is still [undefined] the route answers 500
    as well: each attempt throws before any query is sent. *)
Lemma access_logs_before_startup (env : Env) (main : option Pool) (w : World) :
  result_of (get_access_logs env (mkPools main None) w)
  = Ok (Some (mkResponse 500
                (Json (Js.Object
                         [("error", Js.Str "Failed to fetch access logs");
                          ("details",
                           Js.Str "Cannot read properties of undefined (reading 'query')")]))))
  /\ queried (trace_of (get_access_logs env (mkPools main None) w)) = [].
Proof. split; reflexivity. Qed.

(** ** Acquiring the primary pool (C5) *)

Section Acquisition.

Variable env : Env.
Variables retries delay : nat.

Let cfg : PoolConfig := main_config env.

(** One turn of the loop, by the answers of the two external calls. *)
Lemma connection_attempts_step (i : nat) (later : list nat) (w : World) :
  connection_attempts env retries delay (i :: later) w
  = let retry e w1 t :=
      let '(r, w2, t') :=
        connection_attempts env retries delay later (waited retries delay i w1) in
      (r, w2, t ++ after_failure retries delay i e ++ t') in
    match create_pool env (calls w) cfg with
    | Some e =>
        retry e (mkWorld (S (calls w)) (now w)) [CreatePool cfg (Some e)]
    | None =>
        match get_connection env (S (calls w)) (PoolOf cfg) with
        | Some e =>
            retry e (mkWorld (S (S (calls w))) (now w))
                  [CreatePool cfg None; GetConnection (PoolOf cfg) (Some e)]
        | None =>
            (Ok (PoolOf cfg), mkWorld (S (S (calls w))) (now w),
             [CreatePool cfg None; GetConnection (PoolOf cfg) None;
              Release (PoolOf cfg); ConsoleLog ConnectionSuccessful])
        end
    end.
Proof.
  subst cfg. cbn [connection_attempts].
  unfold try_catch at 1.
  unfold createPool, getConnection, release, console_log, console_error.
  unfold bind at 1 2 3 4 5. unfold external at 1. cbn [calls now].
  unfold after_failure, waited.
  destruct (create_pool env (calls w) (main_config env)) as [e | ].
  - unfold throw at 1. unfold bind, act, when.
    destruct (i <? retries - 1)%nat; unfold bind, act, sleep, ret;
      cbn [calls now];
      destruct (connection_attempts env retries delay later _)
        as [[r w2] t']; cbn [app]; reflexivity.
  - unfold ret at 1. unfold bind at 1. unfold external at 1. cbn [calls now].
    destruct (get_connection env (S (calls w)) (PoolOf (main_config env)))
      as [e | ].
    + unfold throw at 1. unfold bind, act, when.
      destruct (i <? retries - 1)%nat; unfold bind, act, sleep, ret;
        cbn [calls now];
        destruct (connection_attempts env retries delay later _)
          as [[r w2] t']; cbn [app]; reflexivity.
    + reflexivity.
Qed.


Lemma sleeps_app (t t' : list Action) :
  sleeps (t ++ t') = sleeps t ++ sleeps t'.
Proof.
  induction t as [ | a t IH]; [reflexivity | ].
  destruct a; cbn; now rewrite ?IH.
Qed.






End Acquisition.




(** ** Start-up and what may end the process (C4) *)




Lemma connection_attempts_trace (env : Env) (retries delay : nat)
      (indices : list nat) :
  forall w,
    let run := connection_attempts env retries delay indices w in
    Forall (acquisition_action env) (trace_of run)
    /\ forall p, result_of run = Ok p ->
                 p = PoolOf (main_config env)
                 /\ In (GetConnection p None) (trace_of run).
Proof.
  assert (Hsafe : forall i e,
             Forall (acquisition_action env)
                    (after_failure retries delay i e)).
  { intros i e. unfold after_failure.
    destruct (i <? retries - 1)%nat; repeat constructor; discriminate. }
  induction indices as [ | i later IH]; intros w.
  - cbn. split; [constructor | discriminate].
  - cbv zeta. rewrite connection_attempts_step. cbv zeta.
    destruct (create_pool env (calls w) (main_config env)) as [e | ].
    + specialize (IH (waited retries delay i
                             (mkWorld (S (calls w)) (now w)))).
      cbv zeta in IH.
      destruct (connection_attempts env retries delay later _)
        as [[r w2] t'].
      unfold result_of, trace_of in *. cbn [fst snd] in *.
      destruct IH as [Hall Hok]. split.
      * apply Forall_app. split; [ | apply Forall_app; auto].
        repeat constructor. discriminate.
      * intros p Hp. destruct (Hok p Hp) as [-> Hin]. split; [reflexivity | ].
        apply in_or_app. right. apply in_or_app. now right.
    + destruct (get_connection env (S (calls w)) (PoolOf (main_config env)))
        as [e | ].
      * specialize (IH (waited retries delay i
                               (mkWorld (S (S (calls w))) (now w)))).
        cbv zeta in IH.
        destruct (connection_attempts env retries delay later _)
          as [[r w2] t'].
        unfold result_of, trace_of in *. cbn [fst snd] in *.
        destruct IH as [Hall Hok]. split.
        -- apply Forall_app. split; [ | apply Forall_app; auto].
           repeat constructor; try discriminate.
           intros p failure H. now injection H as <- _.
        -- intros p Hp. destruct (Hok p Hp) as [-> Hin].
           split; [reflexivity | ].
           apply in_or_app. right. apply in_or_app. now right.
      * unfold result_of, trace_of. cbn [fst snd]. split.
        -- repeat constructor; try discriminate.
           intros p failure H. now injection H as <- _.
        -- intros p Hp. injection Hp as <-. split; [reflexivity | ].
           cbn. tauto.
Qed.







(** Unfolds a route down to the oracle's answers and goes through them. *)
Ltac run_route :=
  cbv beta iota zeta delta
    [login get_access_logs access_logs_loop authenticateToken health
     checkDatabaseConnection getConnection release compare sign verify
     try_catch bind query external ret throw act sleep console_log
     console_error result_of trace_of pool accessLogsPool calls now app
     fst snd Nat.eqb Nat.sub negb];
  repeat (match goal with
          | |- context [match ?x with _ => _ end] =>
              first [is_var x | lazymatch x with
                                | run_query _ _ _ _ _ => idtac
                                | bcrypt_compare _ _ _ _ => idtac
                                | jwt_verify _ _ _ _ => idtac
                                | get_connection _ _ _ => idtac
                                | token_of _ => idtac
                                end];
              destruct x
          end;
          cbv beta iota zeta delta [calls now app fst snd negb]).



(** [createPoolWithRetry] is its first stretch followed by the rest. *)
Lemma createPoolWithRetry_in_two (env : Env) (retries delay : nat) (w : World) :
  createPoolWithRetry env retries delay w
  = let '(suspended, w1, t1) := createPoolWithRetry_begin env retries delay w in
    let '(r, w2, t2) :=
      createPoolWithRetry_resume env retries delay suspended w1 in
    (r, w2, t1 ++ t2).
Proof.
  unfold createPoolWithRetry, createPoolWithRetry_begin.
  destruct w as [c n].
  destruct retries as [ | [ | m]]; [reflexivity | | ].
  - cbn [seq]. rewrite connection_attempts_step.
    cbv beta iota zeta delta
      [createPool bind external createPoolWithRetry_resume waited
       after_failure console_error console_log act when sleep release ret
       throw calls now app fst snd Nat.sub Nat.ltb Nat.leb Nat.add seq
       connection_attempts].
    destruct (create_pool env c (main_config env)) as [e | ];
      [reflexivity | ].
    destruct (get_connection env (S c) (PoolOf (main_config env)))
      as [e | ]; reflexivity.
  - change (seq 0 (S (S m))) with (0 :: seq 1 (S m)).
    rewrite connection_attempts_step.
    unfold createPoolWithRetry_resume, after_failure, waited.
    change (S (S m) - 1) with (S m).
    change (0 + 1) with 1.
    cbv beta iota zeta delta
      [createPool bind external createPoolWithRetry_resume waited
       after_failure console_error console_log act when sleep release ret
       throw calls now app fst snd Nat.ltb Nat.leb].
    destruct (create_pool env c (main_config env)) as [e | ];
      [ | destruct (get_connection env (S c) (PoolOf (main_config env)))
            as [e | ] ];
      try reflexivity;
      match goal with
      | |- context [connection_attempts ?a ?b ?d ?l ?w'] =>
          destruct (connection_attempts a b d l w') as [[r w2] t2]
      end; reflexivity.
Qed.

(** Start-up, by the answers of the external calls. *)
Lemma startup_cases (env : Env) (w : World) :
  startup env w
  = let main := main_config env in
    let logs := access_logs_config in
    let c := calls w in
    let fatal e := [ConsoleError (FatalConnectionError e); Exit 1] in
    let rest w' := connection_attempts env 5 5000 (seq 1 4) w' in
    match create_pool env c main with
    | Some e0 =>
        let first :=
          [CreatePool main (Some e0);
           ConsoleError (AttemptFailed 1 (message e0));
           ConsoleLog (RetryingIn 5000)] in
        match create_pool env (S c) logs with
        | Some e =>
            (Exited 1, mkWorld (S (S c)) (now w),
             first ++ CreatePool logs (Some e) :: fatal e)
        | None =>
            startup_end (first ++ [CreatePool logs None; Sleep 5000])
                        (rest (mkWorld (S (S c)) (now w + 5000)))
        end
    | None =>
        let answer := get_connection env (S c) (PoolOf main) in
        let first := [CreatePool main None; GetConnection (PoolOf main) answer] in
        match create_pool env (S (S c)) logs with
        | Some e =>
            (Exited 1, mkWorld (S (S (S c))) (now w),
             first ++ CreatePool logs (Some e) :: fatal e)
        | None =>
            match answer with
            | None =>
                (Established (mkPools (Some (PoolOf main))
                                      (Some (PoolOf logs))),
                 mkWorld (S (S (S c))) (now w),
                 first ++ [CreatePool logs None; Release (PoolOf main);
                           ConsoleLog ConnectionSuccessful;
                           ConsoleLog AllEstablished])
            | Some e1 =>
                startup_end
                  (first ++ [CreatePool logs None;
                             ConsoleError (AttemptFailed 1 (message e1));
                             ConsoleLog (RetryingIn 5000); Sleep 5000])
                  (rest (mkWorld (S (S (S c))) (now w + 5000)))
            end
        end
    end.
Proof.
  destruct w as [c n].
  unfold startup, createPoolWithRetry_begin, createPoolWithRetry_resume.
  change (0 <? 5 - 1)%nat with true. change (5 - 1) with 4.
  remember 5000 as delay eqn:Hdelay. clear Hdelay.
  cbv beta iota zeta delta
    [createAccessLogsPool createPool bind external console_error console_log
     act when sleep release ret throw calls now app fst snd startup_end].
  destruct (create_pool env c (main_config env)) as [e0 | ].
  - destruct (create_pool env (S c) access_logs_config) as [e | ];
      [reflexivity | ].
    match goal with
    | |- context [connection_attempts ?a ?b ?d ?l ?w'] =>
        destruct (connection_attempts a b d l w') as [[[p | e] w3] t3]
    end; reflexivity.
  - destruct (create_pool env (S (S c)) access_logs_config) as [e | ];
      [reflexivity | ].
    destruct (get_connection env (S c) (PoolOf (main_config env)))
      as [e1 | ]; [ | reflexivity].
    match goal with
    | |- context [connection_attempts ?a ?b ?d ?l ?w'] =>
        destruct (connection_attempts a b d l w') as [[[p | e] w3] t3]
    end; reflexivity.
Qed.





(** With every store up, start-up assigns both pools, the primary pool
    being created and asked for a connection first; with the access-log
    store unreachable it still does, because that store is never tried;
    with no connection to be had it exits after six [createPool] calls. *)
Example startup_examples :
  startup env_up w0
  = (Established pools_up, mkWorld 3 0,
     [CreatePool (main_config env_up) None;
      GetConnection (PoolOf (main_config env_up)) None;
      CreatePool access_logs_config None;
      Release (PoolOf (main_config env_up));
      ConsoleLog ConnectionSuccessful; ConsoleLog AllEstablished])
  /\ fst (fst (startup env_logs_down w0)) = Established pools_up
  /\ fst (fst (startup env_down w0)) = Exited 1
  /\ attempts (snd (startup env_down w0)) = 6.
Proof. repeat split; reflexivity. Qed.

(** ** The token middleware (C6, C10) *)

Lemma split_without_separator (sep : ascii) (s : string) :
  contains sep s = false -> split sep s = [s].
Proof.
  induction s as [ | c rest IH]; [reflexivity | ].
  cbn. destruct (Ascii.eqb c sep); [discriminate | ].
  cbn. intros H. now rewrite (IH H).
Qed.

Lemma split_at_separator (sep : ascii) (s rest : string) :
  contains sep s = false ->
  split sep (s ++ String sep rest)%string = s :: split sep rest.
Proof.
  induction s as [ | c s IH]; intros H.
  - cbn. now rewrite Ascii.eqb_refl.
  - cbn in *. destruct (Ascii.eqb c sep); [discriminate | ].
    cbn in H. now rewrite (IH H).
Qed.

(** The token is the second word of the header, whatever the first. *)
Lemma token_of_second_word (scheme token : string) :
  contains " " scheme = false ->
  contains " " token = false ->
  token_of (Some (scheme ++ " " ++ token)%string) = Some token.
Proof.
  intros Hscheme Htoken. unfold token_of.
  change (scheme ++ " " ++ token)%string with (scheme ++ String " " token)%string.
  rewrite split_at_separator, split_without_separator by assumption.
  destruct scheme; reflexivity.
Qed.

(** A header of one word has no token. *)
Lemma token_of_single_word (word : string) :
  contains " " word = false ->
  token_of (Some word) = None \/ token_of (Some word) = Some EmptyString.
Proof.
  intros H. unfold token_of. destruct word as [ | c rest]; [now right | ].
  rewrite split_without_separator by assumption. now left.
Qed.

Lemma authenticateToken_cases (env : Env) (authHeader : option string)
      (w : World) :
  result_of (authenticateToken env authHeader w)
  = match token_of authHeader with
    | None | Some EmptyString => Ok (Respond no_token_provided)
    | Some token =>
        match jwt_verify env (calls w) token (JWT_SECRET env) with
        | inl _ => Ok (Respond invalid_token)
        | inr user => Ok (Next user)
        end
    end.
Proof.
  unfold authenticateToken.
  destruct (token_of authHeader) as [[ | c token] | ]; try reflexivity.
  unfold bind, verify, external, result_of. cbn.
  destruct (jwt_verify env (calls w) (String c token) (JWT_SECRET env));
    reflexivity.
Qed.

(** C6: the middleware on [/api/protected] answers 401 when the header is
    missing or has no second word, 403 when the token in the header fails
    verification, and calls [next()] only with a token that verification
    accepts. *)
Theorem protected_routes_need_valid_token
        (env : Env) (authHeader : option string) (w : World) :
  let run := authenticateToken env authHeader w in
  (authHeader = None -> result_of run = Ok (Respond no_token_provided))
  /\ (forall word,
         contains " " word = false -> authHeader = Some word ->
         result_of run = Ok (Respond no_token_provided))
  /\ (forall scheme token,
         contains " " scheme = false -> contains " " token = false ->
         token <> EmptyString ->
         authHeader = Some (scheme ++ " " ++ token)%string ->
         match jwt_verify env (calls w) token (JWT_SECRET env) with
         | inl _ => result_of run = Ok (Respond invalid_token)
         | inr user => result_of run = Ok (Next user)
         end)
  /\ (forall user,
         result_of run = Ok (Next user) ->
         exists header token,
           authHeader = Some header
           /\ nth_error (split " " header) 1 = Some token
           /\ jwt_verify env (calls w) token (JWT_SECRET env) = inr user).
Proof.
  cbv zeta. rewrite authenticateToken_cases.
  split; [ | split; [ | split]].
  - now intros ->.
  - intros word Hword ->.
    now destruct (token_of_single_word word Hword) as [-> | ->].
  - intros scheme token Hscheme Htoken Hne ->.
    rewrite token_of_second_word by assumption.
    destruct token as [ | c token]; [now contradiction Hne | ].
    now destruct (jwt_verify env (calls w) (String c token) (JWT_SECRET env)).
  - intros user H. destruct authHeader as [header | ]; [ | discriminate H].
    exists header. unfold token_of in H.
    destruct header as [ | c header]; [discriminate H | ].
    destruct (nth_error (split " " (String c header)) 1)
      as [[ | d token] | ]; try discriminate H.
    exists (String d token). repeat split.
    destruct (jwt_verify env (calls w) (String d token) (JWT_SECRET env));
      [discriminate H | now injection H as ->].
Qed.

Lemma protected_routes_need_valid_token_witness :
  result_of (authenticateToken env_up (Some "Bearer forged.token") w0)
  = Ok (Respond invalid_token).
Proof.
  destruct (protected_routes_need_valid_token
              env_up (Some "Bearer forged.token") w0) as (_ & _ & H & _).
  apply (H "Bearer" "forged.token"); try reflexivity. discriminate.
Defined.

(** C10: the scheme word is not looked at: a token that verification
    accepts is let through after any first word, and taken for missing
    when it is the whole header. *)
Theorem scheme_is_not_checked
        (env : Env) (scheme token : string) (user : Js.Obj) (w : World) :
  contains " " scheme = false ->
  contains " " token = false ->
  token <> EmptyString ->
  jwt_verify env (calls w) token (JWT_SECRET env) = inr user ->
  result_of (authenticateToken env (Some (scheme ++ " " ++ token)%string) w)
  = Ok (Next user)
  /\ result_of (authenticateToken env (Some token) w)
     = Ok (Respond no_token_provided).
Proof.
  intros Hscheme Htoken Hne Hvalid. rewrite !authenticateToken_cases. split.
  - rewrite token_of_second_word by assumption.
    destruct token as [ | c token]; [now contradiction Hne | ].
    now rewrite Hvalid.
  - now destruct (token_of_single_word token Htoken) as [-> | ->].
Qed.

Lemma scheme_is_not_checked_witness :
  result_of (authenticateToken env_up
               (Some "Basic header.payload.signature") w0)
  = Ok (Next [("userId", Js.Num (Js.Dec false 1 0));
              ("username", Js.Str "admin")])
  /\ result_of (authenticateToken env_up (Some "header.payload.signature") w0)
     = Ok (Respond no_token_provided).
Proof.
  apply (scheme_is_not_checked env_up "Basic" "header.payload.signature");
    try reflexivity.
  discriminate.
Defined.

Example two_spaces_hide_the_token :
  result_of (authenticateToken env_up
               (Some "Bearer  header.payload.signature") w0)
  = Ok (Respond no_token_provided).
Proof. reflexivity. Qed.

(** ** Login (C7) *)

(** When bcrypt compares and finds no match, a login for a name that is in
    the table gets the answer of a login for a name that is not: HTTP 401
    with the same body. *)
Lemma login_failures_indistinguishable
        (env : Env) (st : Pools) (p : Pool) (w1 w2 : World)
        (body1 body2 user : Js.Obj) (others : list Js.Obj) :
  pool st = Some p ->
  run_query env (calls w1) p users_sql [Js.get "username" body1] = inr [] ->
  run_query env (calls w2) p users_sql [Js.get "username" body2]
  = inr (user :: others) ->
  bcrypt_compare env (S (calls w2)) (Js.get "password" body2)
                 (Js.get "password" user) = inr false ->
  result_of (login env st body1 w1) = result_of (login env st body2 w2)
  /\ result_of (login env st body1 w1)
     = Ok (mkResponse 401
             (Json (Js.Object [("error", Js.Str "Invalid credentials")]))).
Proof.
  intros Hpool Hnone Hsome Hwrong.
  destruct st as [main logs]. cbn in Hpool. subst main.
  destruct w1 as [c1 n1], w2 as [c2 n2]. cbn [calls] in *.
  cbv beta iota zeta delta
    [login try_catch bind query compare sign external ret throw act
     console_error result_of pool calls now app fst snd negb].
  rewrite Hnone, Hsome. cbv beta iota zeta delta [calls now fst snd].
  rewrite Hwrong. split; reflexivity.
Qed.

Lemma login_failures_indistinguishable_witness :
  result_of (login env_up pools_up
               [("username", Js.Str "ghost"); ("password", Js.Str "secret")]
               w0)
  = result_of (login env_up pools_up
                 [("username", Js.Str "admin"); ("password", Js.Str "guess")]
                 w0)
  /\ result_of (login env_up pools_up
                  [("username", Js.Str "ghost"); ("password", Js.Str "secret")]
                  w0)
     = Ok (mkResponse 401
             (Json (Js.Object [("error", Js.Str "Invalid credentials")]))).
Proof.
  apply (login_failures_indistinguishable
           env_up pools_up (PoolOf (main_config env_up)) w0 w0 _ _
           user_row []); reflexivity.
Defined.

Example login_succeeds :
  result_of (login env_up pools_up
               [("username", Js.Str "admin"); ("password", Js.Str "secret")]
               w0)
  = Ok (mkResponse 200
          (Json (Js.Object [("token", Js.Str "header.payload.signature")]))).
Proof. reflexivity. Qed.

(** C7 does not hold of the code: the two failures can be told apart by
    leaving the password out, or sending one that is not a string. For a
    name that is not in the table the route answers 401 before it looks at
    the password; for a name that is, bcryptjs rejects the comparison, the
    route's handler catches the error and answers 500. So the status code
    tells whether the user name exists. *)
Theorem missing_password_tells_users_apart
        (env : Env) (st : Pools) (p : Pool) (w1 w2 : World)
        (body1 body2 user : Js.Obj) (others : list Js.Obj) :
  bcryptjs_arguments env ->
  pool st = Some p ->
  run_query env (calls w1) p users_sql [Js.get "username" body1] = inr [] ->
  run_query env (calls w2) p users_sql [Js.get "username" body2]
  = inr (user :: others) ->
  typeof (Js.get "password" body2) <> "string" ->
  result_of (login env st body1 w1)
  = Ok (mkResponse 401
          (Json (Js.Object [("error", Js.Str "Invalid credentials")])))
  /\ result_of (login env st body2 w2)
     = Ok (mkResponse 500
             (Json (Js.Object [("error", Js.Str "Internal server error")])))
  /\ result_of (login env st body1 w1) <> result_of (login env st body2 w2).
Proof.
  intros Hlib Hpool Hnone Hsome Htype.
  specialize (Hlib (S (calls w2)) (Js.get "password" body2)
                   (Js.get "password" user) (or_introl Htype)).
  destruct st as [main logs]. cbn in Hpool. subst main.
  destruct w1 as [c1 n1], w2 as [c2 n2]. cbn [calls] in *.
  cbv beta iota zeta delta
    [login try_catch bind query compare sign external ret throw act
     console_error result_of pool calls now app fst snd negb].
  rewrite Hnone, Hsome. cbv beta iota zeta delta [calls now fst snd].
  rewrite Hlib. repeat split. discriminate.
Qed.

Lemma missing_password_tells_users_apart_witness :
  result_of (login env_bcryptjs pools_up [("username", Js.Str "ghost")] w0)
  = Ok (mkResponse 401
          (Json (Js.Object [("error", Js.Str "Invalid credentials")])))
  /\ result_of (login env_bcryptjs pools_up [("username", Js.Str "admin")] w0)
     = Ok (mkResponse 500
             (Json (Js.Object [("error", Js.Str "Internal server error")])))
  /\ result_of (login env_bcryptjs pools_up [("username", Js.Str "ghost")] w0)
     <> result_of (login env_bcryptjs pools_up [("username", Js.Str "admin")]
                         w0).
Proof.
  apply (missing_password_tells_users_apart
           env_bcryptjs pools_up (PoolOf (main_config env_up)) w0 w0
           [("username", Js.Str "ghost")] [("username", Js.Str "admin")]
           user_row []).
  - intros n s hash [H | H]; destruct s, hash;
      try reflexivity; now contradiction H.
  - reflexivity.
  - reflexivity.
  - reflexivity.
  - discriminate.
Defined.

(* ================================================================== *)
(** * Further properties of the server *)
(* ================================================================== *)

(** ** The liveness probe and the health route *)

(** X1: [GET /api/health] always answers 200 with status [ok]; it reports
    [connected] exactly when the primary pool is assigned and hands out a
    connection, [disconnected] otherwise, also before start-up has
    finished; a connection it obtains is released, and it sends no
    query. *)
Theorem health_reports_probe (env : Env) (st : Pools) (w : World) :
  let run := health env st w in
  let up := exists p, pool st = Some p /\ get_connection env (calls w) p = None in
  (up -> result_of run = Ok (mkResponse 200 (health_body "connected")))
  /\ (~ up -> result_of run = Ok (mkResponse 200 (health_body "disconnected")))
  /\ (pool st = None ->
      errors_logged (trace_of run)
      = [ConnectionFailed
           "Cannot read properties of undefined (reading 'getConnection')"])
  /\ obtained (trace_of run) = released (trace_of run)
  /\ queried (trace_of run) = [].
Proof.
  cbv zeta. destruct st as [[p | ] logs], w as [c n]; cbn [pool calls].
  - unfold health, checkDatabaseConnection, getConnection, try_catch, bind,
      external, result_of, trace_of.
    cbn [pool calls now fst snd].
    destruct (get_connection env c p) as [e | ] eqn:Hconn; cbn.
    + repeat split; try reflexivity.
      * intros (p' & Hp & Hnone). injection Hp as <-. congruence.
      * discriminate.
    + repeat split; try reflexivity.
      * intros Hdown. contradiction Hdown. now exists p.
      * discriminate.
  - cbn. repeat split; try reflexivity.
    intros (p' & Hp & _). discriminate.
Qed.

Lemma health_reports_probe_witness :
  result_of (health env_down pools_up w0)
  = Ok (mkResponse 200 (health_body "disconnected")).
Proof.
  destruct (health_reports_probe env_down pools_up w0) as (_ & Hdown & _).
  apply Hdown. intros (p & Hp & Hnone). discriminate Hnone.
Defined.

(** ** Acquiring the primary pool: connections *)

Lemma obtained_app (t t' : list Action) :
  obtained (t ++ t') = obtained t + obtained t'.
Proof. unfold obtained. now rewrite filter_app, length_app. Qed.

Lemma released_app (t t' : list Action) :
  released (t ++ t') = released t + released t'.
Proof. unfold released. now rewrite filter_app, length_app. Qed.

Lemma after_failure_connections (retries delay i : nat) (e : Error) :
  obtained (after_failure retries delay i e) = 0
  /\ released (after_failure retries delay i e) = 0.
Proof. unfold after_failure. now destruct (i <? retries - 1)%nat. Qed.

Lemma waited_world (retries delay i : nat) (e : Error) (w : World) :
  calls (waited retries delay i w) = calls w
  /\ now (waited retries delay i w)
     = now w + delay * length (sleeps (after_failure retries delay i e)).
Proof.
  unfold waited, after_failure.
  destruct (i <? retries - 1)%nat; cbn; split; lia.
Qed.

(** What the acquisition loop does with connections, with the clock and
    with the call count. *)
Lemma connection_attempts_accounts (env : Env) (retries delay : nat)
      (indices : list nat) :
  forall w,
    let run := connection_attempts env retries delay indices w in
    let t := trace_of run in
    obtained t = released t
    /\ (forall p, result_of run = Ok p ->
         exists before,
           t = before ++ [CreatePool (main_config env) None;
                          GetConnection p None; Release p;
                          ConsoleLog ConnectionSuccessful]
           /\ obtained before = 0)
    /\ (forall e, result_of run = Throw e -> obtained t = 0)
    /\ now (world_after run) = now w + delay * length (sleeps t)
    /\ calls (world_after run) <= calls w + 2 * length indices.
Proof.
  induction indices as [ | i later IH]; intros w.
  - cbn. split; [reflexivity | ]. split; [discriminate | ].
    split; [reflexivity | ]. split; lia.
  - cbv zeta. rewrite connection_attempts_step. cbv zeta.
    assert (Hretry : forall e w1 t1,
               obtained t1 = 0 -> released t1 = 0 -> sleeps t1 = [] ->
               now w1 = now w -> calls w1 <= calls w + 2 ->
               let run :=
                 (let '(r, w2, t') :=
                    connection_attempts env retries delay later
                      (waited retries delay i w1)
                  in (r, w2, t1 ++ after_failure retries delay i e ++ t')) in
               let t := trace_of run in
               obtained t = released t
               /\ (forall p, result_of run = Ok p ->
                    exists before,
                      t = before ++ [CreatePool (main_config env) None;
                                     GetConnection p None; Release p;
                                     ConsoleLog ConnectionSuccessful]
                      /\ obtained before = 0)
               /\ (forall e', result_of run = Throw e' -> obtained t = 0)
               /\ now (world_after run) = now w + delay * length (sleeps t)
               /\ calls (world_after run)
                  <= calls w + 2 * length (i :: later)).
    { intros e w1 t1 Hob Hrel Hsl Hnow Hcalls. cbv zeta.
      specialize (IH (waited retries delay i w1)). cbv zeta in IH.
      destruct (waited_world retries delay i e w1) as [Hc Hn].
      destruct (after_failure_connections retries delay i e) as [Hob' Hrel'].
      destruct (connection_attempts env retries delay later
                  (waited retries delay i w1)) as [[r w2] t'].
      unfold result_of, trace_of, world_after in *. cbn [fst snd] in *.
      destruct IH as (Hleak & Hok & Hthrow & Hclock & Hcount).
      rewrite !obtained_app, !released_app, !sleeps_app, !length_app,
        Hob, Hrel, Hob', Hrel', Hsl.
      cbn [length Nat.add].
      split; [exact Hleak | ]. split; [ | split; [ | split]].
      - intros p Hp. destruct (Hok p Hp) as (before & -> & Hbefore).
        exists (t1 ++ after_failure retries delay i e ++ before).
        split; [now rewrite <- !app_assoc | ].
        rewrite !obtained_app. lia.
      - intros e' He'. now rewrite (Hthrow e' He').
      - rewrite Hclock, Hn, Hnow. lia.
      - rewrite Hc in Hcount. lia. }
    destruct (create_pool env (calls w) (main_config env)) as [e | ].
    { apply (Hretry e (mkWorld (S (calls w)) (now w))
                    [CreatePool (main_config env) (Some e)]);
        try reflexivity. cbn. lia. }
    destruct (get_connection env (S (calls w)) (PoolOf (main_config env)))
      as [e | ].
    { apply (Hretry e (mkWorld (S (S (calls w))) (now w))
                    [CreatePool (main_config env) None;
                     GetConnection (PoolOf (main_config env)) (Some e)]);
        try reflexivity. cbn. lia. }
    unfold result_of, trace_of, world_after. cbn [fst snd].
    split; [reflexivity | ]. split; [ | split; [discriminate | split]].
    + intros p Hp. injection Hp as <-. exists []. now split.
    + cbn. lia.
    + cbn. lia.
Qed.

(** X2: acquiring the primary pool never leaks a connection: it obtains at
    most one, releases it at once, and returns right after logging
    success; when it gives up it has obtained none. *)
Theorem pool_acquisition_releases
        (env : Env) (retries delay : nat) (w : World) :
  let run := createPoolWithRetry env retries delay w in
  let t := trace_of run in
  obtained t = released t
  /\ (forall p, result_of run = Ok p ->
       p = PoolOf (main_config env)
       /\ obtained t = 1
       /\ exists before,
           t = before ++ [CreatePool (main_config env) None;
                          GetConnection p None; Release p;
                          ConsoleLog ConnectionSuccessful])
  /\ (forall e, result_of run = Throw e -> obtained t = 0).
Proof.
  cbv zeta. unfold createPoolWithRetry.
  destruct (connection_attempts_accounts env retries delay (seq 0 retries) w)
    as (Hleak & Hok & Hthrow & _).
  destruct (connection_attempts_trace env retries delay (seq 0 retries) w)
    as [_ Hpool].
  split; [exact Hleak | ]. split; [ | exact Hthrow].
  intros p Hp. destruct (Hpool p Hp) as [-> _].
  destruct (Hok _ Hp) as (before & Ht & Hbefore).
  split; [reflexivity | ]. split; [ | now exists before].
  rewrite Ht, obtained_app, Hbefore. reflexivity.
Qed.

Lemma pool_acquisition_releases_witness :
  obtained (trace_of (createPoolWithRetry env_up 5 5000 w0)) = 1
  /\ released (trace_of (createPoolWithRetry env_up 5 5000 w0)) = 1.
Proof.
  destruct (pool_acquisition_releases env_up 5 5000 w0) as (Hleak & Hok & _).
  destruct (Hok (PoolOf (main_config env_up)) eq_refl) as (_ & Hone & _).
  split; [exact Hone | ]. rewrite <- Hleak. exact Hone.
Defined.

(** ** The login route *)

(** X4: [POST /api/login] has exactly three answers: 401 with the fixed
    credentials message, 500 with the fixed internal message, and 200 with
    a token. It answers 500 exactly when it logged an exception, whose
    message never reaches the body. It sends at most one query: the fixed
    statement, with the submitted user name as its only parameter. *)
Theorem login_answers
        (env : Env) (st : Pools) (body : Js.Obj) (w : World) :
  let run := login env st body w in
  (result_of run = Ok invalid_credentials
   \/ result_of run = Ok internal_error
   \/ exists token,
       result_of run
       = Ok (mkResponse 200 (Json (Js.Object [("token", Js.Str token)]))))
  /\ (result_of run = Ok internal_error
      <-> exists e, errors_logged (trace_of run) = [LoginError e])
  /\ (result_of run <> Ok internal_error -> errors_logged (trace_of run) = [])
  /\ (forall p sql params result,
         In (Query p sql params result) (trace_of run) ->
         sql = users_sql /\ params = [Js.get "username" body])
  /\ length (queried (trace_of run)) <= 1.
Proof.
  destruct st as [main logs], w as [c n]. cbv zeta.
  run_route; cbn [In errors_logged queried length].
  all: split; [ first [ now left | now (right; left)
                      | right; right; eexists; reflexivity ] | ].
  all: split; [ split; [ intros H; first [ discriminate H | eexists; reflexivity ]
                       | intros [err Herr]; first [ discriminate Herr | reflexivity ] ] | ].
  all: split; [ intros H; first [ reflexivity | now contradiction H ] | ].
  all: split; [ | lia ].
  all: intros q sql params result H;
    repeat (destruct H as [H | H]; try discriminate H; try contradiction);
    injection H as <- <- <- <-; split; reflexivity.
Qed.

Lemma login_answers_witness :
  exists e,
    errors_logged
      (trace_of (login env_up (mkPools None None)
                   [("username", Js.Str "admin"); ("password", Js.Str "secret")]
                   w0))
    = [LoginError e].
Proof.
  destruct (login_answers env_up (mkPools None None)
              [("username", Js.Str "admin"); ("password", Js.Str "secret")]
              w0) as (_ & [Hlogged _] & _).
  exact (Hlogged eq_refl).
Defined.

(** The acquisition loop only ever creates pools with [main_config]. *)
Lemma connection_attempts_configs (env : Env) (retries delay : nat)
      (indices : list nat) :
  forall w cfg failure,
    In (CreatePool cfg failure)
       (trace_of (connection_attempts env retries delay indices w)) ->
    cfg = main_config env.
Proof.
  assert (Hquiet : forall i e cfg failure,
             ~ In (CreatePool cfg failure) (after_failure retries delay i e)).
  { intros i e cfg failure. unfold after_failure.
    destruct (i <? retries - 1)%nat; cbn; intuition discriminate. }
  induction indices as [ | i later IH]; intros w cfg failure;
    [intros [] | ].
  rewrite connection_attempts_step. cbv zeta.
  destruct (create_pool env (calls w) (main_config env)) as [e | ].
  - specialize (IH (waited retries delay i (mkWorld (S (calls w)) (now w)))
                   cfg failure).
    destruct (connection_attempts env retries delay later _) as [[r w2] t'].
    unfold trace_of in *. cbn [snd app] in *.
    intros [H | H]; [now injection H as <- _ | ].
    apply in_app_or in H as [H | H]; [now apply Hquiet in H | now apply IH].
  - destruct (get_connection env (S (calls w)) (PoolOf (main_config env)))
      as [e | ].
    + specialize (IH (waited retries delay i
                             (mkWorld (S (S (calls w))) (now w)))
                     cfg failure).
      destruct (connection_attempts env retries delay later _) as [[r w2] t'].
      unfold trace_of in *. cbn [snd app] in *.
      intros [H | [H | H]]; [now injection H as <- _ | discriminate H | ].
      apply in_app_or in H as [H | H]; [now apply Hquiet in H | now apply IH].
    + unfold trace_of. cbn [snd].
      intros [H | [H | [H | [H | []]]]]; try discriminate H.
      now injection H as <- _.
Qed.

(** ** Reading the token from the header *)

(** X6: the middleware reads the second word of the header and nothing
    else: words after the token do not change its answer, and a second
    space right after the scheme word makes the token count as missing
    (401), whatever follows. *)
Theorem token_is_second_word
        (env : Env) (scheme token more : string) (w : World) :
  contains " " scheme = false ->
  contains " " token = false ->
  result_of (authenticateToken env
               (Some (scheme ++ " " ++ token ++ " " ++ more)%string) w)
  = result_of (authenticateToken env (Some (scheme ++ " " ++ token)%string) w)
  /\ result_of (authenticateToken env
                  (Some (scheme ++ " " ++ " " ++ more)%string) w)
     = Ok (Respond no_token_provided).
Proof.
  intros Hscheme Htoken. rewrite !authenticateToken_cases.
  rewrite (token_of_second_word scheme token) by assumption.
  assert (Hsecond : forall rest,
             token_of (Some (scheme ++ " " ++ token ++ " " ++ rest)%string)
             = Some token).
  { intros rest. unfold token_of.
    change (scheme ++ " " ++ token ++ " " ++ rest)%string
      with (scheme ++ String " " (token ++ String " " rest))%string.
    rewrite !split_at_separator by assumption.
    destruct scheme; reflexivity. }
  split.
  - now rewrite Hsecond.
  - specialize (Hsecond more).
    assert (Hempty : token_of (Some (scheme ++ " " ++ " " ++ more)%string)
                     = Some EmptyString).
    { unfold token_of.
      change (scheme ++ " " ++ " " ++ more)%string
        with (scheme ++ String " " (EmptyString ++ String " " more))%string.
      rewrite !split_at_separator by (assumption || reflexivity).
      destruct scheme; reflexivity. }
    now rewrite Hempty.
Qed.

Lemma token_is_second_word_witness :
  result_of (authenticateToken env_up
               (Some "Bearer header.payload.signature and more") w0)
  = result_of (authenticateToken env_up
                 (Some "Bearer header.payload.signature") w0)
  /\ result_of (authenticateToken env_up
                  (Some "Bearer  header.payload.signature") w0)
     = Ok (Respond no_token_provided).
Proof.
  apply (token_is_second_word env_up "Bearer" "header.payload.signature");
    reflexivity.
Defined.

(** ** Configuration *)

(** X7: a MySQL setting or the JWT secret comes from the environment only
    when the variable is set to a non-empty string; unset or empty, the
    built-in default is used, so an empty [JWT_SECRET] signs tokens with
    [your-secret-key]. The access-log pool never reads the environment. *)
Theorem settings_fall_back (env : Env) :
  (forall name value,
      value <> EmptyString -> getenv env name = Some value ->
      (name = "MYSQL_HOST" -> host (main_config env) = value)
      /\ (name = "MYSQL_USER" -> user (main_config env) = value)
      /\ (name = "MYSQL_PASSWORD" -> password (main_config env) = value)
      /\ (name = "MYSQL_DATABASE" -> database (main_config env) = value)
      /\ (name = "JWT_SECRET" -> JWT_SECRET env = value))
  /\ (forall name,
         getenv env name = None \/ getenv env name = Some EmptyString ->
         (name = "MYSQL_HOST" -> host (main_config env) = "10.10.11.27")
         /\ (name = "MYSQL_USER" -> user (main_config env) = "root")
         /\ (name = "MYSQL_PASSWORD"
             -> password (main_config env) = "bismillah123")
         /\ (name = "MYSQL_DATABASE" -> database (main_config env) = "suhu")
         /\ (name = "JWT_SECRET" -> JWT_SECRET env = "your-secret-key"))
  /\ (forall w cfg failure,
         In (CreatePool cfg failure) (snd (startup env w)) ->
         cfg = access_logs_config \/ cfg = main_config env).
Proof.
  split; [ | split].
  - intros name value Hne Hget.
    repeat split; intros ->; unfold main_config, JWT_SECRET; cbn;
      rewrite Hget; (destruct value; [now contradiction Hne | reflexivity]).
  - intros name Hget.
    repeat split; intros ->; unfold main_config, JWT_SECRET; cbn;
      destruct Hget as [-> | ->]; reflexivity.
  - intros w cfg failure. rewrite startup_cases. cbv zeta.
    destruct w as [c n]. cbn [calls now].
    remember 5000 as delay eqn:Hdelay. clear Hdelay.
    assert (Hend : forall before w',
               (In (CreatePool cfg failure) before ->
                cfg = access_logs_config \/ cfg = main_config env) ->
               In (CreatePool cfg failure)
                  (snd (startup_end before
                          (connection_attempts env 5 delay (seq 1 4) w'))) ->
               cfg = access_logs_config \/ cfg = main_config env).
    { intros before w' Hbefore.
      pose proof (connection_attempts_configs env 5 delay (seq 1 4) w')
        as Hcfg.
      destruct (connection_attempts env 5 delay (seq 1 4) w')
        as [[[p | e] w2] t2];
        unfold trace_of in Hcfg; cbn [fst snd startup_end] in *;
        intros H;
        (apply in_app_or in H as [H | H]; [now apply Hbefore | ]);
        (apply in_app_or in H as [H | H];
         [right; now apply (Hcfg cfg failure) | ]);
        repeat (destruct H as [H | H]; try discriminate H);
        contradiction. }
    destruct (create_pool env c (main_config env)) as [e0 | ].
    + destruct (create_pool env (S c) access_logs_config) as [e | ].
      * cbn [snd app]. intros H.
        repeat (destruct H as [H | H]; try discriminate H;
                try (injection H as <- _; tauto)).
        contradiction.
      * apply Hend. intros H.
        repeat (destruct H as [H | H]; try discriminate H;
                try (injection H as <- _; tauto)).
        contradiction.
    + destruct (create_pool env (S (S c)) access_logs_config) as [e | ].
      * cbn [snd app]. intros H.
        repeat (destruct H as [H | H]; try discriminate H;
                try (injection H as <- _; tauto)).
        contradiction.
      * destruct (get_connection env (S c) (PoolOf (main_config env)))
          as [e1 | ].
        -- apply Hend. intros H.
           repeat (destruct H as [H | H]; try discriminate H;
                   try (injection H as <- _; tauto)).
           contradiction.
        -- cbn [snd app]. intros H.
           repeat (destruct H as [H | H]; try discriminate H;
                   try (injection H as <- _; tauto)).
           contradiction.
Qed.

Lemma settings_fall_back_witness :
  JWT_SECRET
    (mkEnv (fun name => if String.eqb name "JWT_SECRET"
                        then Some EmptyString else None)
           (create_pool env_up) (get_connection env_up) (run_query env_up)
           (bcrypt_compare env_up) (jwt_sign env_up) (jwt_verify env_up))
  = "your-secret-key".
Proof.
  set (env := mkEnv _ _ _ _ _ _ _).
  destruct (settings_fall_back env) as (_ & Hdefault & _).
  destruct (Hdefault "JWT_SECRET" (or_intror eq_refl))
    as (_ & _ & _ & _ & Hsecret).
  now apply Hsecret.
Defined.

(** ** More on the poll loop *)

(** X8: an empty result is not an error. When all five queries succeed,
    whatever they return, all five are asked, nothing is logged and the
    tick makes exactly five external calls; when they all come back empty
    the tick consists of the five queries and emits nothing. *)
Theorem empty_results_are_not_errors
        (env : Env) (main logs : Pool) (w : World) :
  let st := mkPools (Some main) (Some logs) in
  let run := fetchAndEmitData env st w in
  ((forall j, j < 5 -> exists rows, answer env main logs w j = inr rows) ->
   queried (trace_of run) = query_order
   /\ errors_logged (trace_of run) = []
   /\ calls (world_after run) = 5 + calls w)
  /\ ((forall j, j < 5 -> answer env main logs w j = inr []) ->
      trace_of run
      = map (fun q => Query (fst q) (snd q) [] (inr [])) (battery main logs)).
Proof.
  cbv zeta. destruct w as [c n]. unfold answer. split; intros Hall.
  - destruct (Hall 0 ltac:(lia)) as [[ | ? ?] H0];
      destruct (Hall 1 ltac:(lia)) as [[ | ? ?] H1];
      destruct (Hall 2 ltac:(lia)) as [[ | ? ?] H2];
      destruct (Hall 3 ltac:(lia)) as [[ | ? ?] H3];
      destruct (Hall 4 ltac:(lia)) as [[ | ? ?] H4];
      clear Hall; cbn [nth_error battery Nat.add calls] in *;
      unfold world_after; replay_tick; vm_compute; repeat split; reflexivity.
  - assert (H0 := Hall 0). assert (H1 := Hall 1). assert (H2 := Hall 2).
    assert (H3 := Hall 3). assert (H4 := Hall 4). clear Hall.
    cbn [nth_error battery Nat.add calls] in *.
    specialize (H0 ltac:(lia)). specialize (H1 ltac:(lia)).
    specialize (H2 ltac:(lia)). specialize (H3 ltac:(lia)).
    specialize (H4 ltac:(lia)).
    replay_tick. reflexivity.
Qed.

Lemma empty_results_are_not_errors_witness :
  queried (trace_of (fetchAndEmitData env_up pools_up w0)) = query_order
  /\ errors_logged (trace_of (fetchAndEmitData env_up pools_up w0)) = []
  /\ calls (world_after (fetchAndEmitData env_up pools_up w0)) = 5.
Proof.
  destruct (empty_results_are_not_errors
              env_up (PoolOf (main_config env_up))
              (PoolOf access_logs_config) w0) as [Hany _].
  apply Hany. intros [ | [ | [ | [ | [ | j]]]]] Hj; try lia;
    eexists; reflexivity.
Defined.

(** X9: ticks that run before start-up has assigned the pools send no
    query and emit nothing: each of them only logs the error of reading
    [query] from [undefined], and the loop goes on. *)
Theorem ticks_before_startup
        (env : Env) (logs : option Pool) (n : nat) (w : World) :
  poll env (mkPools None logs) n w
  = (Ok tt, w,
     repeat (ConsoleError
               (PollError
                  (mkError
                     "Cannot read properties of undefined (reading 'query')")))
            n).
Proof.
  induction n as [ | n IH]; [reflexivity | ].
  cbn [poll]. unfold bind.
  change (fetchAndEmitData env (mkPools None logs) w)
    with (Ok tt, w,
          [ConsoleError (PollError (undefined_pool_error "query"))]).
  cbv beta iota. now rewrite IH.
Qed.

Lemma tick_action_app (t t' : list Action) :
  forallb tick_action (t ++ t')
  = forallb tick_action t && forallb tick_action t'.
Proof. apply forallb_app. Qed.

Lemma queried_app (t t' : list Action) :
  queried (t ++ t') = queried t ++ queried t'.
Proof.
  induction t as [ | a t IH]; [reflexivity | ].
  destruct a; cbn; now rewrite ?IH.
Qed.

Lemma emit_all_quiet (evs : list (string * Js.Value)) :
  forallb tick_action (emit_all evs) = true /\ queried (emit_all evs) = [].
Proof. induction evs as [ | ev evs [IH1 IH2]]; now split. Qed.

Lemma run_queries_accounts (env : Env) (st : Pools) (qs : list PollQuery) :
  forall w,
    let run := run_queries env st qs w in
    length (queried (trace_of run)) <= length qs
    /\ calls (world_after run) = calls w + length (queried (trace_of run))
    /\ now (world_after run) = now w
    /\ forallb tick_action (trace_of run) = true.
Proof.
  induction qs as [ | q later IH]; intros w.
  - cbn. repeat split; lia.
  - cbv zeta. rewrite run_queries_step.
    destruct (from q st) as [p | ]; [ | cbn; repeat split; lia].
    cbv zeta.
    destruct (run_query env (calls w) p (statement q) []) as [e | rows].
    + cbn. repeat split; lia.
    + specialize (IH (mkWorld (S (calls w)) (now w))). cbv zeta in IH.
      destruct (run_queries env st later _) as [[r w2] t].
      unfold trace_of, world_after in *. cbn [fst snd calls now] in *.
      destruct IH as (Hlen & Hcalls & Hnow & Hall).
      destruct (emit_all_quiet (events q rows)) as [Hquiet Hnone].
      cbn [queried forallb tick_action length].
      rewrite queried_app, tick_action_app, Hnone, Hquiet, Hall.
      cbn [app andb]. repeat split; lia.
Qed.

Lemma tick_accounts (env : Env) (st : Pools) (w : World) :
  let run := fetchAndEmitData env st w in
  length (queried (trace_of run)) <= 5
  /\ calls (world_after run) = calls w + length (queried (trace_of run))
  /\ now (world_after run) = now w
  /\ forallb tick_action (trace_of run) = true.
Proof.
  cbv zeta. rewrite fetchAndEmitData_blocks. unfold try_catch.
  pose proof (run_queries_accounts env st poll_queries w) as H.
  cbv zeta in H.
  destruct (run_queries env st poll_queries w) as [[[[] | e] w'] t];
    unfold trace_of, world_after in *; cbn [fst snd] in *.
  - exact H.
  - destruct H as (Hlen & Hcalls & Hnow & Hall).
    unfold console_error, act. cbn [fst snd].
    rewrite queried_app, tick_action_app, Hall, app_nil_r.
    cbn in *. repeat split; assumption.
Qed.

(** X10: [n] ticks of the poll loop send at most [5 * n] queries and make
    no other external call; they never create a pool, take a connection,
    wait or exit, and they leave the clock where it was. *)
Theorem poll_accounts (env : Env) (st : Pools) (n : nat) (w : World) :
  let run := poll env st n w in
  length (queried (trace_of run)) <= 5 * n
  /\ calls (world_after run) = calls w + length (queried (trace_of run))
  /\ now (world_after run) = now w
  /\ forallb tick_action (trace_of run) = true.
Proof.
  cbv zeta. revert w. induction n as [ | n IH]; intros w.
  - cbn. repeat split; lia.
  - cbn [poll]. unfold bind.
    destruct (tick_accounts env st w) as (Hlen & Hcalls & Hnow & Hall).
    destruct (fetchAndEmitData env st w) as [[[[] | e] w1] t1];
      unfold trace_of, world_after in *; cbn [fst snd] in *.
    + specialize (IH w1).
      destruct (poll env st n w1) as [[r2 w2] t2]. cbn [fst snd] in *.
      destruct IH as (Hlen' & Hcalls' & Hnow' & Hall').
      rewrite queried_app, length_app, tick_action_app, Hall, Hall'.
      repeat split; lia.
    + repeat split; try assumption. lia.
Qed.

(** ** More on the access-log route *)

(** X11: [GET /api/access-logs] always sends one response, 200 or 500,
    whatever the store does and also before start-up: it sends at most
    three queries, all the join statement, waits one second after each
    failure but the last, so at most two seconds in all, and answers 500
    only after logging three failed attempts numbered 1, 2 and 3, with the
    message of the last one as [details]. *)
Theorem access_logs_always_answers (env : Env) (st : Pools) (w : World) :
  let run := get_access_logs env st w in
  let t := trace_of run in
  exists r,
    result_of run = Ok (Some r)
    /\ (status r = 200 \/ status r = 500)
    /\ length (queried t) <= 3
    /\ (forall sql, In sql (queried t) -> sql = access_logs_sql)
    /\ now (world_after run) = now w + 1000 * length (sleeps t)
    /\ length (sleeps t) <= 2
    /\ (status r = 200 -> length (sleeps t) = length (errors_logged t))
    /\ (status r = 500 ->
        exists e1 e2 e3,
          errors_logged t
          = [AccessLogsError 1 e1; AccessLogsError 2 e2; AccessLogsError 3 e3]
          /\ body r
             = Json (Js.Object
                       [("error", Js.Str "Failed to fetch access logs");
                        ("details", Js.Str (message e3))])).
Proof.
  destruct st as [main logs], w as [c n]. cbv zeta. unfold world_after.
  run_route; eexists; (split; [reflexivity | ]);
    cbn [status body queried sleeps errors_logged length In].
  all: split; [first [now left | now right] | ].
  all: split; [lia | ].
  all: split; [intros sql H; repeat (destruct H as [<- | H]; try reflexivity);
               contradiction | ].
  all: split; [lia | ].
  all: split; [lia | ].
  all: split; [intros H; first [reflexivity | discriminate H] | ].
  all: intros H; first [discriminate H | do 3 eexists; split; reflexivity].
Qed.

Lemma access_logs_always_answers_witness :
  exists e1 e2 e3,
    errors_logged (trace_of (get_access_logs env_logs_down pools_up w0))
    = [AccessLogsError 1 e1; AccessLogsError 2 e2; AccessLogsError 3 e3].
Proof.
  destruct (access_logs_always_answers env_logs_down pools_up w0)
    as (r & Hr & _ & _ & _ & _ & _ & _ & Hfail).
  assert (Hstatus : status r = 500).
  { vm_compute in Hr. now injection Hr as <-. }
  destruct (Hfail Hstatus) as (e1 & e2 & e3 & Hlog & _).
  now exists e1, e2, e3.
Defined.

(* ================================================================== *)
(** * Properties of the dashboard's authentication *)
(* ================================================================== *)

Section ClientProperties.

Import Client.

(** ** Cookies *)

Lemma get_after_remove (today : N) (name : string) (cookies : Jar) :
  Cookies_get today name (Cookies_remove name cookies) = None.
Proof.
  unfold Cookies_get, Cookies_remove.
  induction cookies as [ | [n c] cookies IH]; [reflexivity | ].
  cbn. destruct (String.eqb n name) eqn:E; cbn; [exact IH | ].
  now rewrite E.
Qed.

Lemma get_after_remove_other (today : N) (name other : string)
      (cookies : Jar) :
  other <> name ->
  Cookies_get today other (Cookies_remove name cookies)
  = Cookies_get today other cookies.
Proof.
  intros Hne. unfold Cookies_get, Cookies_remove.
  induction cookies as [ | [n c] cookies IH]; [reflexivity | ].
  cbn. destruct (String.eqb n name) eqn:E; cbn.
  - apply String.eqb_eq in E. subst n.
    destruct (String.eqb name other) eqn:E'; [ | exact IH].
    apply String.eqb_eq in E'. now contradiction Hne.
  - destruct (String.eqb n other); [reflexivity | exact IH].
Qed.

Lemma get_after_set (today later : N) (name text : string) (days : N)
      (cookies : Jar) :
  Cookies_get later name (Cookies_set today name text days cookies)
  = if (later <? expiry today days)%N then Some text else None.
Proof.
  unfold Cookies_get, Cookies_set. cbn. now rewrite String.eqb_refl.
Qed.

(** The expiry written is the requested one cut to whole seconds. *)
Lemma expiry_bounds (today days : N) :
  (expiry today days <= today + days * day_ms
   /\ today + days * day_ms < expiry today days + 1000)%N.
Proof.
  unfold expiry. generalize (today + days * day_ms)%N. intros x.
  assert (Hnz : 1000%N <> 0%N) by discriminate.
  pose proof (N.div_mod x 1000 Hnz) as Hdiv.
  pose proof (N.mod_lt x 1000 Hnz) as Hmod.
  rewrite (N.mul_comm (x / 1000) 1000).
  remember (x / 1000)%N as q. remember (x mod 1000)%N as r. lia.
Qed.

Lemma expiry_after_today (today : N) : (today < expiry today 7)%N.
Proof.
  pose proof (expiry_bounds today 7) as [_ H].
  change (7 * day_ms)%N with 604800000%N in H. lia.
Qed.

Lemma get_after_set_other (today later : N) (name other text : string)
      (days : N) (cookies : Jar) :
  other <> name ->
  Cookies_get later other (Cookies_set today name text days cookies)
  = Cookies_get later other cookies.
Proof.
  intros Hne. unfold Cookies_set.
  rewrite <- (get_after_remove_other later name other cookies Hne).
  unfold Cookies_get at 1. cbn.
  destruct (String.eqb name other) eqn:E; [ | reflexivity].
  apply String.eqb_eq in E. now contradiction Hne.
Qed.

(** ** Logging out *)

(** X12: after [logout] nobody is signed in, both session cookies are gone
    at every instant, every other cookie is as it was, and opening the page
    again finds nobody signed in. *)
Theorem logout_forgets (s : Session) (later : N) :
  auth (logout s) = mkAuth false None
  /\ Cookies_get later "auth_token" (jar (logout s)) = None
  /\ Cookies_get later "user" (jar (logout s)) = None
  /\ (forall name,
         name <> "auth_token" -> name <> "user" ->
         Cookies_get later name (jar (logout s))
         = Cookies_get later name (jar s))
  /\ auth (AuthProvider later (jar (logout s))) = mkAuth false None.
Proof.
  assert (Htoken : Cookies_get later "auth_token" (jar (logout s)) = None).
  { cbn [logout jar].
    rewrite get_after_remove_other by discriminate.
    apply get_after_remove. }
  assert (Huser : Cookies_get later "user" (jar (logout s)) = None)
    by apply get_after_remove.
  repeat split; try assumption.
  - intros name H1 H2. cbn [logout jar].
    now rewrite !get_after_remove_other.
  - unfold AuthProvider, on_mount, first_render. cbn [jar].
    now rewrite Htoken.
Qed.

Lemma logout_forgets_witness :
  Cookies_get 0 "theme"
    (jar (logout (mkSession
                    (Cookies_set 0 "theme" "dark" 30
                       (Cookies_set 0 "auth_token" "header.payload.signature"
                                    7 []))
                    (mkAuth true (Some "admin")) [])))
  = Some "dark".
Proof.
  destruct (logout_forgets
              (mkSession
                 (Cookies_set 0 "theme" "dark" 30
                    (Cookies_set 0 "auth_token" "header.payload.signature"
                                 7 []))
                 (mkAuth true (Some "admin")) []) 0)
    as (_ & _ & _ & Hothers & _).
  rewrite Hothers; [reflexivity | discriminate | discriminate].
Defined.

(** ** Signing in *)

(** X13: a login that the server answers with a non-empty token signs the
    user in and stores both cookies with an expiry seven days ahead, cut to
    whole seconds. Opening the page again before that instant restores the
    session for the same user, except that an empty user name is not
    restored; opened at that instant or later, nobody is signed in. *)
Theorem login_persists (print : Js.Number -> string) (today : N)
        (token name : string) (s : Session) :
  token <> EmptyString ->
  let run := login print today (inr (Js.Str token)) name s in
  let gone := expiry today 7 in
  fst run = Ok tt
  /\ auth (snd run) = mkAuth true (Some name)
  /\ errors (snd run) = errors s
  /\ (gone <= today + 7 * day_ms /\ today + 7 * day_ms < gone + 1000)%N
  /\ (forall later,
         (later < gone)%N ->
         Cookies_get later "auth_token" (jar (snd run)) = Some token
         /\ Cookies_get later "user" (jar (snd run)) = Some name
         /\ auth (AuthProvider later (jar (snd run)))
            = match name with
              | EmptyString => mkAuth false None
              | _ => mkAuth true (Some name)
              end)
  /\ (forall later,
         (gone <= later)%N ->
         Cookies_get later "auth_token" (jar (snd run)) = None
         /\ Cookies_get later "user" (jar (snd run)) = None
         /\ auth (AuthProvider later (jar (snd run))) = mkAuth false None).
Proof.
  intros Hne. cbv zeta. unfold login.
  destruct token as [ | c token]; [now contradiction Hne | ].
  cbn [truthy cookie_string fst snd auth errors jar].
  split; [reflexivity | ]. split; [reflexivity | ]. split; [reflexivity | ].
  split; [apply expiry_bounds | ].
  split.
  - intros later Hsoon. apply N.ltb_lt in Hsoon.
    assert (Htoken : Cookies_get later "auth_token"
                       (Cookies_set today "user" name 7
                          (Cookies_set today "auth_token" (String c token) 7
                             (jar s)))
                     = Some (String c token)).
    { rewrite get_after_set_other by discriminate.
      now rewrite get_after_set, Hsoon. }
    assert (Huser : Cookies_get later "user"
                      (Cookies_set today "user" name 7
                         (Cookies_set today "auth_token" (String c token) 7
                            (jar s)))
                    = Some name)
      by now rewrite get_after_set, Hsoon.
    split; [exact Htoken | ]. split; [exact Huser | ].
    unfold AuthProvider, on_mount, first_render. cbn [jar errors].
    rewrite Htoken, Huser. cbn [truthy_string andb]. now destruct name.
  - intros later Hlate. apply N.ltb_ge in Hlate.
    assert (Htoken : Cookies_get later "auth_token"
                       (Cookies_set today "user" name 7
                          (Cookies_set today "auth_token" (String c token) 7
                             (jar s)))
                     = None).
    { rewrite get_after_set_other by discriminate.
      now rewrite get_after_set, Hlate. }
    split; [exact Htoken | ].
    split; [now rewrite get_after_set, Hlate | ].
    unfold AuthProvider, on_mount, first_render. cbn [jar errors].
    now rewrite Htoken.
Qed.

Lemma login_persists_witness :
  auth (AuthProvider (3 * day_ms)
          (jar (snd (login (fun _ => "0") 0
                           (inr (Js.Str "header.payload.signature"))
                           "admin" (first_render [])))))
  = mkAuth true (Some "admin").
Proof.
  assert (Hne : "header.payload.signature" <> EmptyString) by discriminate.
  destruct (login_persists (fun _ => "0") 0 "header.payload.signature"
                           "admin" (first_render []) Hne)
    as (_ & _ & _ & _ & Hwithin & _).
  destruct (Hwithin (3 * day_ms)%N) as (_ & _ & Hrestored).
  - vm_compute. reflexivity.
  - exact Hrestored.
Defined.

(** A cookie set at instant 1500 for seven days is written with expiry
    604801000: it is still there one millisecond before, and gone at that
    instant, half a second short of seven days. *)
Example cookie_expiry_in_whole_seconds :
  Cookies_get 604800999 "auth_token" (Cookies_set 1500 "auth_token" "t" 7 [])
  = Some "t"
  /\ Cookies_get 604801000 "auth_token"
                 (Cookies_set 1500 "auth_token" "t" 7 [])
     = None.
Proof. split; reflexivity. Qed.

(** X14: a login that is rejected, or answered without a token, throws,
    writes the error to the console and changes nothing else: whoever was
    signed in stays signed in and no cookie is touched. The error thrown is
    the rejection itself, or [Login failed] when the token is missing. And
    a login only succeeds on a reply that carries a token. *)
Theorem failed_login_changes_nothing
        (print : Js.Number -> string) (today : N)
        (reply : Error + Js.Scalar) (name : string) (s : Session) :
  let run := login print today reply name s in
  (forall rejection,
      reply = inl rejection ->
      run = (Throw rejection,
             mkSession (jar s) (auth s) (errors s ++ [rejection])))
  /\ (forall token,
         reply = inr token -> truthy token = false ->
         run = (Throw (mkError "Login failed"),
                mkSession (jar s) (auth s)
                          (errors s ++ [mkError "Login failed"])))
  /\ (fst run = Ok tt ->
      exists token, reply = inr token /\ truthy token = true).
Proof.
  cbv zeta. unfold login. split; [ | split].
  - now intros rejection ->.
  - intros token -> Hfalsy. now rewrite Hfalsy.
  - destruct reply as [rejection | token]; [discriminate | ].
    destruct (truthy token) eqn:Htruthy; [ | discriminate].
    intros _. now exists token.
Qed.

Lemma failed_login_changes_nothing_witness :
  login (fun _ => "0") 0 (inr Js.Undefined) "admin" (first_render [])
  = (Throw (mkError "Login failed"),
     mkSession [] (mkAuth false None) [mkError "Login failed"]).
Proof.
  destruct (failed_login_changes_nothing
              (fun _ => "0") 0 (inr Js.Undefined) "admin" (first_render []))
    as (_ & Hmissing & _).
  now apply (Hmissing Js.Undefined).
Defined.

(** ** The login form *)

(** X15: submitting the form shows the spinner with the old message
    cleared while the request is in flight and always ends with the spinner
    off and the typed fields untouched. It navigates to [/dashboard] exactly
    when the reply carries a token; every other reply, whatever its cause,
    shows the one message [Invalid username or password] and leaves the
    session as it was. *)
Theorem submit_outcomes
        (print : Js.Number -> string) (today : N)
        (reply : Error + Js.Scalar) (form : Form) (s : Session) :
  let out := handleSubmit print today reply form s in
  let accepted :=
    match reply with
    | inr token => truthy token
    | inl _ => false
    end in
  in_flight out
  = mkForm (username form) (password form) (showPassword form) "" true
  /\ final out
     = mkForm (username form) (password form) (showPassword form)
              (if accepted then "" else "Invalid username or password")
              false
  /\ navigated out = (if accepted then ["/dashboard"] else [])
  /\ auth (session out)
     = (if accepted then mkAuth true (Some (username form)) else auth s)
  /\ (accepted = false -> jar (session out) = jar s).
Proof.
  cbv zeta. unfold handleSubmit, login.
  destruct reply as [rejection | token]; [now repeat split | ].
  destruct (truthy token); repeat split. discriminate.
Qed.

Lemma submit_outcomes_witness :
  jar (session (handleSubmit (fun _ => "0") 0
                  (inl (mkError "Network Error"))
                  (mkForm "admin" "secret" false "" false)
                  (first_render [])))
  = [].
Proof.
  destruct (submit_outcomes (fun _ => "0") 0 (inl (mkError "Network Error"))
              (mkForm "admin" "secret" false "" false) (first_render []))
    as (_ & _ & _ & _ & Hjar).
  now apply Hjar.
Defined.

End ClientProperties.

(** ** The form against the server *)

(** X16: the form submitted to the login route. An unknown user, a wrong
    password and a server that cannot reach its database all end the same
    way on screen: the message [Invalid username or password], no
    navigation, the session untouched; only the console tells 401 from
    500. A matching password with a non-empty signed token signs the user
    in under the typed name, navigates to [/dashboard] and stores the
    token. *)
Theorem submit_against_server
        (print : Js.Number -> string) (env : Env) (st : Pools) (w : World)
        (today : N) (form : Client.Form) (s : Client.Session) :
  let out := submit_to_server print env st w today form s in
  let name := Js.Str (Client.username form) in
  let refused code :=
    Client.final out
    = Client.mkForm (Client.username form) (Client.password form)
                    (Client.showPassword form)
                    "Invalid username or password" false
    /\ Client.navigated out = []
    /\ Client.session out
       = Client.mkSession
           (Client.jar s) (Client.auth s)
           (Client.errors s
              ++ [mkError ("Request failed with status code " ++ code)]) in
  (pool st = None -> refused "500")
  /\ (forall p e,
         pool st = Some p ->
         run_query env (calls w) p users_sql [name] = inl e ->
         refused "500")
  /\ (forall p,
         pool st = Some p ->
         run_query env (calls w) p users_sql [name] = inr [] ->
         refused "401")
  /\ (forall p row others,
         pool st = Some p ->
         run_query env (calls w) p users_sql [name] = inr (row :: others) ->
         bcrypt_compare env (S (calls w))
                        (Js.Str (Client.password form))
                        (Js.get "password" row) = inr false ->
         refused "401")
  /\ (forall p row others,
         pool st = Some p ->
         run_query env (calls w) p users_sql [name] = inr (row :: others) ->
         bcrypt_compare env (S (calls w))
                        (Js.Str (Client.password form))
                        (Js.get "password" row) = inr true ->
         let token :=
           jwt_sign env (S (S (calls w)))
                    [("userId", Js.get "id" row);
                     ("username", Js.get "username" row)]
                    (JWT_SECRET env) in
         token <> EmptyString ->
         Client.navigated out = ["/dashboard"]
         /\ Client.auth (Client.session out)
            = Client.mkAuth true (Some (Client.username form))
         /\ Client.Cookies_get today "auth_token"
                               (Client.jar (Client.session out))
            = Some token).
Proof.
  destruct st as [main logs], w as [c n], form as [u pw shown msg busy].
  cbv zeta. cbn [pool calls Client.username Client.password
                 Client.showPassword].
  unfold submit_to_server, Client.login_request.
  cbn [Client.username Client.password].
  split; [ | split; [ | split; [ | split]]].
  - intros ->. now repeat split.
  - intros p e -> Hfail.
    cbv beta iota zeta delta
      [login try_catch bind query compare sign external ret throw act
       console_error result_of pool calls now app fst snd negb Js.get
       String.eqb Ascii.eqb Bool.eqb].
    rewrite Hfail. now repeat split.
  - intros p -> Hnone.
    cbv beta iota zeta delta
      [login try_catch bind query compare sign external ret throw act
       console_error result_of pool calls now app fst snd negb Js.get
       String.eqb Ascii.eqb Bool.eqb].
    rewrite Hnone. now repeat split.
  - intros p row others -> Hfound Hwrong.
    cbv beta iota zeta delta
      [login try_catch bind query compare sign external ret throw act
       console_error result_of pool calls now app fst snd negb].
    change (Js.get "username" [("username", Js.Str u); ("password", Js.Str pw)])
      with (Js.Str u).
    change (Js.get "password" [("username", Js.Str u); ("password", Js.Str pw)])
      with (Js.Str pw).
    rewrite Hfound. cbv beta iota zeta delta [calls now fst snd].
    rewrite Hwrong. now repeat split.
  - intros p row others -> Hfound Hmatch Hne.
    remember (jwt_sign env (S (S c)) _ _) as token eqn:Htoken.
    cbv beta iota zeta delta
      [login try_catch bind query compare sign external ret throw act
       console_error result_of pool calls now app fst snd negb].
    change (Js.get "username" [("username", Js.Str u); ("password", Js.Str pw)])
      with (Js.Str u).
    change (Js.get "password" [("username", Js.Str u); ("password", Js.Str pw)])
      with (Js.Str pw).
    rewrite Hfound. cbv beta iota zeta delta [calls now fst snd].
    rewrite Hmatch. cbv beta iota. rewrite <- Htoken.
    unfold res_json, Client.axios_post, Client.handleSubmit, Client.login.
    cbn [status body Nat.leb Nat.ltb andb Js.get String.eqb Ascii.eqb
         Bool.eqb Client.username].
    clear Htoken. destruct token as [ | ch token']; [now contradiction Hne | ].
    cbn [Client.truthy Client.cookie_string Client.navigated Client.session
         Client.auth Client.jar].
    repeat split.
    rewrite get_after_set_other by discriminate.
    rewrite get_after_set.
    assert (Hlt : (today <? Client.expiry today 7)%N = true)
      by (apply N.ltb_lt, expiry_after_today).
    now rewrite Hlt.
Qed.

Lemma submit_against_server_witness :
  Client.navigated
    (submit_to_server (fun _ => "0") env_up pools_up w0 0
       (Client.mkForm "ghost" "secret" false "" false)
       (Client.first_render []))
  = []
  /\ Client.navigated
       (submit_to_server (fun _ => "0") env_up pools_up w0 0
          (Client.mkForm "admin" "secret" false "" false)
          (Client.first_render []))
     = ["/dashboard"].
Proof.
  split.
  - destruct (submit_against_server
                (fun _ => "0") env_up pools_up w0 0
                (Client.mkForm "ghost" "secret" false "" false)
                (Client.first_render [])) as (_ & _ & Hunknown & _).
    now destruct (Hunknown (PoolOf (main_config env_up)) eq_refl eq_refl)
      as (_ & Hnav & _).
  - destruct (submit_against_server
                (fun _ => "0") env_up pools_up w0 0
                (Client.mkForm "admin" "secret" false "" false)
                (Client.first_render [])) as (_ & _ & _ & _ & Haccepted).
    destruct (Haccepted (PoolOf (main_config env_up)) user_row []
                        eq_refl eq_refl eq_refl) as (Hnav & _).
    + discriminate.
    + exact Hnav.
Defined.
